(** * hhparser: the single-hand parser of the PokerOK hand-history tool

    A shallow embedding of [src/hhparser.py]: the regular expressions of
    the module, [split_into_hands], [to_float_safe],
    [normalize_currency_symbol], [parse_hand] and the filtering loop of
    [process_input], followed by the properties that the specification
    states about them.

    Modelling conventions.
    - A Python [str] is a [list ascii].  Characters are 8-bit: the classes
      [\s], [\d], [\w], [str.strip], [str.lower], [str.upper] and the case
      folding of [re.I] are the ASCII ones, and a character outside ASCII
      (the currency signs of [RE_LIMIT]) stands as its UTF-8 bytes, which
      belong to no class.
    - [re] patterns are values of [regex]; [re_match] and [re_search] are
      a backtracking matcher with the priorities of Python's engine
      (greedy and lazy repetition, ordered alternation, optional groups,
      [^] at offset 0, [$] at the end or before a final newline).
    - A Python [float] obtained from a decimal token is the exact rational
      value of the token, i.e. the number that [float] rounds to binary64.
    - Exceptions are values of [exn] carried by the [res] monad; the
      [try ... except Exception] of [parse_hand] is the [match] of
      [parse_hand] on the result of [parse_hand_body].
    - File discovery, decoding and the thread pool are left out:
      [process_input] takes the files as lists of lines, and the futures
      are the results of [parse_hand] in submission order. *)

From Stdlib Require Import List Ascii String ZArith QArith Lia Bool Arith.
Import ListNotations.

Set Implicit Arguments.
Close Scope Q_scope.
Local Open Scope list_scope.

(** ** Strings *)

Module Str.

Definition str := list ascii.

Definition lit (s : string) : str := list_ascii_of_string s.

Definition code (c : ascii) : nat := nat_of_ascii c.

Definition between (lo hi : nat) (c : ascii) : bool :=
  (lo <=? code c) && (code c <=? hi).

Definition newline : ascii := ascii_of_nat 10.

Definition is_newline (c : ascii) : bool := code c =? 10.

(** [str.isspace] on one ASCII character: TAB..CR, FS..US and the blank. *)
Definition is_space (c : ascii) : bool :=
  between 9 13 c || between 28 32 c.

Definition is_digit (c : ascii) : bool := between 48 57 c.

Definition is_upper (c : ascii) : bool := between 65 90 c.

Definition is_lower (c : ascii) : bool := between 97 122 c.

(** [\w]: letters, digits and the underscore. *)
Definition is_word (c : ascii) : bool :=
  is_upper c || is_lower c || is_digit c || (code c =? 95).

Definition lower (c : ascii) : ascii :=
  if is_upper c then ascii_of_nat (code c + 32) else c.

Definition upper (c : ascii) : ascii :=
  if is_lower c then ascii_of_nat (code c - 32) else c.

Definition str_lower (s : str) : str := map lower s.

Definition str_upper (s : str) : str := map upper s.

Definition ascii_eqb (a b : ascii) : bool := code a =? code b.

Fixpoint str_eqb (a b : str) : bool :=
  match a, b with
  | [], [] => true
  | x :: a', y :: b' => ascii_eqb x y && str_eqb a' b'
  | _, _ => false
  end.

(** [s.lstrip()], [s.rstrip()] and [s.strip()] with no argument. *)
Fixpoint lstrip (s : str) : str :=
  match s with
  | c :: s' => if is_space c then lstrip s' else s
  | [] => []
  end.

Definition rstrip (s : str) : str := rev (lstrip (rev s)).

Definition strip (s : str) : str := rstrip (lstrip s).

(** [line.rstrip('\n')]: every trailing newline goes. *)
Fixpoint drop_newlines (s : str) : str :=
  match s with
  | c :: s' => if is_newline c then drop_newlines s' else s
  | [] => []
  end.

Definition rstrip_nl (s : str) : str := rev (drop_newlines (rev s)).

(** [s.replace(old, new)] for single characters. *)
Definition replace_char (old new : ascii) (s : str) : str :=
  map (fun c => if ascii_eqb c old then new else c) s.

(** [s.replace(c, '')]. *)
Definition remove_char (old : ascii) (s : str) : str :=
  filter (fun c => negb (ascii_eqb c old)) s.

Fixpoint prefixb (p s : str) : bool :=
  match p, s with
  | [], _ => true
  | x :: p', y :: s' => ascii_eqb x y && prefixb p' s'
  | _ :: _, [] => false
  end.

(** [sub in s]. *)
Fixpoint contains (sub s : str) : bool :=
  prefixb sub s ||
  match s with
  | [] => false
  | _ :: s' => contains sub s'
  end.

(** [sep.join(parts)]. *)
Fixpoint join (sep : str) (parts : list str) : str :=
  match parts with
  | [] => []
  | [p] => p
  | p :: rest => p ++ sep ++ join sep rest
  end.

End Str.

Import Str.

(** ** Regular expressions *)

Module Re.

(** The fragment of [re] syntax that the module's patterns use.  Every
    pattern is compiled with [re.I]; repetition is only ever applied to a
    single-character item, optionality to arbitrary items. *)
Inductive regex : Type :=
| Eps
| Bol                                   (* ^ *)
| Eol                                   (* $ *)
| Chr (p : ascii -> bool)               (* one character of a class *)
| Seq (a b : regex)
| Alt (a b : regex)                     (* a|b *)
| Opt (a : regex)                       (* a? *)
| Star (p : ascii -> bool)              (* p* *)
| LazyStar (p : ascii -> bool)          (* p*? *)
| Group (name : string) (a : regex).    (* (?P<name>a) *)

(** A match object: the groups that took part in the match, most recent
    first. *)
Definition env := list (string * str).

Definition cont := nat -> str -> env -> option env.

Fixpoint star (p : ascii -> bool) (k : cont) (pos : nat) (s : str) (e : env)
  : option env :=
  match s with
  | c :: s' =>
      if p c then
        match star p k (S pos) s' e with
        | Some r => Some r
        | None => k pos s e
        end
      else k pos s e
  | [] => k pos s e
  end.

Fixpoint lazystar (p : ascii -> bool) (k : cont) (pos : nat) (s : str) (e : env)
  : option env :=
  match k pos s e with
  | Some r => Some r
  | None =>
      match s with
      | c :: s' => if p c then lazystar p k (S pos) s' e else None
      | [] => None
      end
  end.

(** [run r k pos s e]: match [r] at offset [pos], where [s] is what is
    left of the subject, then continue with [k]; [None] asks the caller
    to backtrack. *)
Fixpoint run (r : regex) (k : cont) (pos : nat) (s : str) (e : env)
  : option env :=
  match r with
  | Eps => k pos s e
  | Bol => if pos =? 0 then k pos s e else None
  | Eol =>
      match s with
      | [] => k pos s e
      | [c] => if is_newline c then k pos s e else None
      | _ => None
      end
  | Chr p =>
      match s with
      | c :: s' => if p c then k (S pos) s' e else None
      | [] => None
      end
  | Seq a b => run a (run b k) pos s e
  | Alt a b =>
      match run a k pos s e with
      | Some r => Some r
      | None => run b k pos s e
      end
  | Opt a =>
      match run a k pos s e with
      | Some r => Some r
      | None => k pos s e
      end
  | Star p => star p k pos s e
  | LazyStar p => lazystar p k pos s e
  | Group n a =>
      run a (fun pos' s' e' => k pos' s' ((n, firstn (pos' - pos) s) :: e'))
          pos s e
  end.

Definition accept : cont := fun _ _ e => Some e.

(** [pattern.match(s)]. *)
Definition re_match (r : regex) (s : str) : option env :=
  run r accept 0 s [].

Fixpoint search_from (r : regex) (pos : nat) (s : str) : option env :=
  match run r accept pos s [] with
  | Some e => Some e
  | None =>
      match s with
      | [] => None
      | _ :: s' => search_from r (S pos) s'
      end
  end.

(** [pattern.search(s)]. *)
Definition re_search (r : regex) (s : str) : option env :=
  search_from r 0 s.

(** [m.group(name)]; [None] is Python's [None]. *)
Fixpoint group (e : env) (n : string) : option str :=
  match e with
  | [] => None
  | (n', t) :: e' => if String.eqb n n' then Some t else group e' n
  end.

(** *** Character classes and pattern combinators *)

Definition ci (c : ascii) : ascii -> bool :=
  fun x => ascii_eqb (lower x) (lower c).

Definition any : ascii -> bool := fun c => negb (is_newline c).

Definition one_of (s : string) : ascii -> bool :=
  fun x => existsb (fun c => ci c x) (lit s).

Definition either (p q : ascii -> bool) : ascii -> bool :=
  fun x => p x || q x.

Definition Plus (p : ascii -> bool) : regex := Seq (Chr p) (Star p).

Definition LazyPlus (p : ascii -> bool) : regex := Seq (Chr p) (LazyStar p).

(** A literal word, compared without case. *)
Fixpoint word_of (s : str) : regex :=
  match s with
  | [] => Eps
  | [c] => Chr (ci c)
  | c :: s' => Seq (Chr (ci c)) (word_of s')
  end.

Definition Lit (s : string) : regex := word_of (lit s).

End Re.

Import Re.

Declare Scope re_scope.
Delimit Scope re_scope with re.
Infix ";;" := Seq (at level 61, right associativity) : re_scope.
Infix "<|>" := Alt (at level 62, right associativity) : re_scope.

(** ** The patterns of the module *)

Module Patterns.

Local Open Scope re_scope.
Local Open Scope string_scope.

(** [[\w\-]] *)
Definition id_char : ascii -> bool := either is_word (ci "-").

(** [[\d\.]] *)
Definition num_char : ascii -> bool := either is_digit (ci ".").

(** [[2-9TJQKA]] and [[cdhs]] *)
Definition rank_char : ascii -> bool := either (between 50 57) (one_of "TJQKA").

Definition suit_char : ascii -> bool := one_of "cdhs".

Definition card : regex := Chr rank_char ;; Chr suit_char.

Definition stars : regex := Plus (ci "*").

(** [^\s*Hand\s*#\s*(?P<hand_id>[\w\-]+).*$] *)
Definition RE_HAND_HEADER : regex :=
  Bol ;; Star is_space ;; Lit "Hand" ;; Star is_space ;; Chr (ci "#") ;;
  Star is_space ;; Group "hand_id" (Plus id_char) ;; Star any ;; Eol.

(** [(?P<limit>NL|PL|FL)\s*(?P<game>Hold\'?em|Omaha|Short\s*Deck).*
    \((?P<sb>[\d\.]+)/(?P<bb>[\d\.]+)\s*(?P<cur>USD|EUR|RUB|CNY|€|\$|₽)?\)] *)
Definition RE_LIMIT : regex :=
  Group "limit" (Lit "NL" <|> Lit "PL" <|> Lit "FL") ;; Star is_space ;;
  Group "game" ((Lit "Hold" ;; Opt (Chr (ci "'")) ;; Lit "em")
                <|> Lit "Omaha"
                <|> (Lit "Short" ;; Star is_space ;; Lit "Deck")) ;;
  Star any ;; Chr (ci "(") ;;
  Group "sb" (Plus num_char) ;; Chr (ci "/") ;; Group "bb" (Plus num_char) ;;
  Star is_space ;;
  Opt (Group "cur" (Lit "USD" <|> Lit "EUR" <|> Lit "RUB" <|> Lit "CNY"
                    <|> Lit "€" <|> Lit "$" <|> Lit "₽")) ;;
  Chr (ci ")").

(** [^Seat\s+(?P<seat>\d+):\s+(?P<name>.+?)\s+\((?P<stack>[\d\.]+)\)] *)
Definition RE_SEAT : regex :=
  Bol ;; Lit "Seat" ;; Plus is_space ;; Group "seat" (Plus is_digit) ;;
  Chr (ci ":") ;; Plus is_space ;; Group "name" (LazyPlus any) ;;
  Plus is_space ;; Chr (ci "(") ;; Group "stack" (Plus num_char) ;;
  Chr (ci ")").

(** [(Button|Dealer).*(seat|at)\s+(?P<btn>\d+)]; the two unnamed groups
    are groups 1 and 2. *)
Definition RE_BUTTON : regex :=
  Group "1" (Lit "Button" <|> Lit "Dealer") ;; Star any ;;
  Group "2" (Lit "seat" <|> Lit "at") ;; Plus is_space ;;
  Group "btn" (Plus is_digit).

(** [^(?P<player>.+?):\s+(?P<verb>bets|checks|calls|folds|raises\s+to|
    all-?in|posts.*|straddle)\s*(?P<amt>[\d\.]+)?] *)
Definition RE_ACTION : regex :=
  Bol ;; Group "player" (LazyPlus any) ;; Chr (ci ":") ;; Plus is_space ;;
  Group "verb" (Lit "bets" <|> Lit "checks" <|> Lit "calls" <|> Lit "folds"
                <|> (Lit "raises" ;; Plus is_space ;; Lit "to")
                <|> (Lit "all" ;; Opt (Chr (ci "-")) ;; Lit "in")
                <|> (Lit "posts" ;; Star any)
                <|> Lit "straddle") ;;
  Star is_space ;; Opt (Group "amt" (Plus num_char)).

(** [Uncalled\s+bet\s+of\s+(?P<amt>[\d\.]+)\s+returned\s+to\s+(?P<player>.+)] *)
Definition RE_RETURN : regex :=
  Lit "Uncalled" ;; Plus is_space ;; Lit "bet" ;; Plus is_space ;;
  Lit "of" ;; Plus is_space ;; Group "amt" (Plus num_char) ;;
  Plus is_space ;; Lit "returned" ;; Plus is_space ;; Lit "to" ;;
  Plus is_space ;; Group "player" (Plus any).

(** [^\*+\s*FLOP\s*\*+\s*\[(?P<flop>C\s+C\s+C)\]] with
    [C = [2-9TJQKA][cdhs]] *)
Definition RE_FLOP : regex :=
  Bol ;; stars ;; Star is_space ;; Lit "FLOP" ;; Star is_space ;; stars ;;
  Star is_space ;; Chr (ci "[") ;;
  Group "flop" (card ;; Plus is_space ;; card ;; Plus is_space ;; card) ;;
  Chr (ci "]").

(** [^\*+\s*TURN\s*\*+.*\[(?P<turn>[2-9TJQKA][cdhs])\]] *)
Definition RE_TURN : regex :=
  Bol ;; stars ;; Star is_space ;; Lit "TURN" ;; Star is_space ;; stars ;;
  Star any ;; Chr (ci "[") ;; Group "turn" card ;; Chr (ci "]").

(** [^\*+\s*RIVER\s*\*+.*\[(?P<river>[2-9TJQKA][cdhs])\]] *)
Definition RE_RIVER : regex :=
  Bol ;; stars ;; Star is_space ;; Lit "RIVER" ;; Star is_space ;; stars ;;
  Star any ;; Chr (ci "[") ;; Group "river" card ;; Chr (ci "]").

(** [Total\s+pot\s+\(?(?P<pot>[\d\.]+)\)?\s*\|\s*Rake\s+(?P<rake>[\d\.]+)] *)
Definition RE_SUMMARY_POT : regex :=
  Lit "Total" ;; Plus is_space ;; Lit "pot" ;; Plus is_space ;;
  Opt (Chr (ci "(")) ;; Group "pot" (Plus num_char) ;; Opt (Chr (ci ")")) ;;
  Star is_space ;; Chr (ci "|") ;; Star is_space ;; Lit "Rake" ;;
  Plus is_space ;; Group "rake" (Plus num_char).

(** [^(?P<player>.+)\s+collected\s+(?P<amt>[\d\.]+)] *)
Definition RE_COLLECTED : regex :=
  Bol ;; Group "player" (Plus any) ;; Plus is_space ;; Lit "collected" ;;
  Plus is_space ;; Group "amt" (Plus num_char).

End Patterns.

Import Patterns.

(** ** Exceptions and numbers *)

Inductive exn : Type := TypeError | ValueError | AttributeError.

Inductive res (A : Type) : Type :=
| Ok (a : A)
| Raise (e : exn).

Arguments Ok {A} a.
Arguments Raise {A} e.

Definition bind {A B : Type} (x : res A) (f : A -> res B) : res B :=
  match x with
  | Ok a => f a
  | Raise e => Raise e
  end.

Notation "x <- c1 ;;; c2" := (bind c1 (fun x => c2))
  (at level 100, c1 at next level, right associativity).

(** A method call on a value that may be [None]: [None.strip()] and the
    like raise [AttributeError]. *)
Definition method {A : Type} (o : option A) : res A :=
  match o with
  | Some a => Ok a
  | None => Raise AttributeError
  end.

Definition digit_val (c : ascii) : Z := Z.of_nat (code c - 48).

Definition digits_val (s : str) : Z :=
  fold_left (fun acc c => (10 * acc + digit_val c)%Z) s 0%Z.

(** [int(tok)] on what [\d+] captures; [int(None)] is a [TypeError].  The
    interpreter's optional limit on the number of digits is not modelled. *)
Definition py_int (o : option str) : res Z :=
  match o with
  | None => Raise TypeError
  | Some s =>
      match s with
      | [] => Raise ValueError
      | _ => if forallb is_digit s then Ok (digits_val s) else Raise ValueError
      end
  end.

(** The float that a decimal literal denotes, in lowest terms. *)
Definition decimal (q : Q) : Q := Qred q.

Definition pow10 (n : nat) : positive := Nat.iter n (Pos.mul 10) 1%positive.

Fixpoint span (p : ascii -> bool) (s : str) : str * str :=
  match s with
  | c :: s' =>
      if p c then let (a, b) := span p s' in (c :: a, b) else ([], s)
  | [] => ([], [])
  end.

(** [float(tok)] on the tokens that [[\d\.]+] captures, the only ones that
    reach it (lemma [patterns_capture_tokens]): digits with at most one
    point and at least one digit give the exact decimal value; any other
    string of digits and points is a [ValueError], here [None].  Signs,
    exponents and the other forms that [float] reads cannot occur in such
    a token and are not modelled. *)
Definition py_float (s : str) : option Q :=
  let (ip, rest) := span is_digit s in
  match rest with
  | [] =>
      match ip with
      | [] => None
      | _ => Some (decimal (digits_val ip # 1)%Q)
      end
  | c :: fp =>
      if ascii_eqb c "."%char && forallb is_digit fp
         && negb (Nat.eqb (List.length ip + List.length fp) 0)
      then Some (decimal (digits_val (ip ++ fp) # pow10 (List.length fp))%Q)
      else None
  end.

(** [to_float_safe]: the [try] turns every exception, the
    [AttributeError] of [None.replace] included, into [None]. *)
Definition to_float_safe (val : option str) : option Q :=
  match val with
  | None => None
  | Some v => py_float (replace_char ","%char "."%char v)
  end.

(** Unary minus on the result of [to_float_safe]: [-None] is a
    [TypeError]. *)
Definition py_neg (x : option Q) : res (option Q) :=
  match x with
  | Some q => Ok (Some (decimal (- q)%Q))
  | None => Raise TypeError
  end.

(** [normalize_currency_symbol] *)
Definition normalize_currency_symbol (sym : option str) : str :=
  match sym with
  | None | Some [] => []
  | Some s =>
      let s := strip s in
      if str_eqb s (lit "€") then lit "EUR"
      else if str_eqb s (lit "$") then lit "USD"
      else if str_eqb s (lit "₽") then lit "RUB"
      else str_upper s
  end.

(** ** Records *)

Inductive street : Type := preflop | flop | turn | river.

(** The dictionary built at the top of [parse_hand]; a field that holds
    [None] in Python is [None] here.  [winner_json] is kept as the list
    that [json.dumps] serialises. *)
Record hand : Type := {
  hand_id : option str;
  site : str;
  game : option str;
  limit_type : option str;
  stakes_sb : option Q;
  stakes_bb : option Q;
  currency : option str;
  players : option Z;
  table_name : option str;
  table_size : option Z;
  btn_seat : option Z;
  board : str;
  pot_total : option Q;
  rake : option Q;
  winner_json : list (str * option Q);
  parse_warnings : str
}.

Record action : Type := {
  a_hand_id : option str;
  a_street : street;
  a_player : str;
  a_action : str;
  a_amount : option Q
}.

Record seat : Type := {
  s_seat : Z;
  s_name : str;
  s_stack : option Q
}.

(** ** [split_into_hands] *)

Definition is_header (line : str) : bool :=
  match re_match RE_HAND_HEADER line with
  | Some _ => true
  | None => false
  end.

Definition nonempty {A : Type} (l : list A) : bool :=
  match l with
  | [] => false
  | _ :: _ => true
  end.

(** The generator's loop: [current] is the accumulator, the result is the
    sequence of blocks yielded from here on. *)
Fixpoint split_loop (lines : list str) (current : list str) : list (list str) :=
  match lines with
  | [] => if nonempty current then [current] else []
  | line :: rest =>
      if is_header line then
        if nonempty current
        then current :: split_loop rest ([] ++ [rstrip_nl line])
        else split_loop rest (current ++ [rstrip_nl line])
      else split_loop rest (current ++ [rstrip_nl line])
  end.

Definition split_into_hands (lines : list str) : list (list str) :=
  split_loop lines [].

(** ** [parse_hand] *)

Module Parse.

Local Open Scope string_scope.

(** Step 1: the first header line gives [hand_id]. *)
Fixpoint find_hand_id (lines : list str) : option str :=
  match lines with
  | [] => None
  | line :: rest =>
      match re_match RE_HAND_HEADER line with
      | Some m => group m "hand_id"
      | None => find_hand_id rest
      end
  end.

Record limit_info : Type := {
  li_limit : str;
  li_game : str;
  li_sb : option Q;
  li_bb : option Q;
  li_cur : str
}.

(** Step 2: the first line on which [RE_LIMIT] is found. *)
Fixpoint find_limit (lines : list str) : res (option limit_info) :=
  match lines with
  | [] => Ok None
  | line :: rest =>
      match re_search RE_LIMIT line with
      | Some m =>
          l <- method (group m "limit") ;;;
          g <- method (group m "game") ;;;
          Ok (Some {| li_limit := str_upper l;
                      li_game := remove_char "'"%char (str_lower g);
                      li_sb := to_float_safe (group m "sb");
                      li_bb := to_float_safe (group m "bb");
                      li_cur := normalize_currency_symbol (group m "cur") |})
      | None => find_limit rest
      end
  end.

(** Step 3: every seat line, in order. *)
Fixpoint find_seats (lines : list str) (players : list seat) : res (list seat) :=
  match lines with
  | [] => Ok players
  | line :: rest =>
      match re_match RE_SEAT line with
      | Some m =>
          n <- py_int (group m "seat") ;;;
          name <- method (group m "name") ;;;
          find_seats rest
            (players ++ [{| s_seat := n; s_name := strip name;
                            s_stack := to_float_safe (group m "stack") |}])
      | None => find_seats rest players
      end
  end.

Fixpoint find_button (lines : list str) : res (option Z) :=
  match lines with
  | [] => Ok None
  | line :: rest =>
      match re_search RE_BUTTON line with
      | Some m => n <- py_int (group m "btn") ;;; Ok (Some n)
      | None => find_button rest
      end
  end.

(** Step 4.  [STREET_MARKERS], in insertion order. *)
Definition STREET_MARKERS : list (str * street) :=
  [ (lit "*** HOLE CARDS ***", preflop);
    (lit "*** FLOP ***", flop);
    (lit "*** TURN ***", turn);
    (lit "*** RIVER ***", river) ].

Fixpoint first_marker (ms : list (str * street)) (line : str) (cur : street)
  : street :=
  match ms with
  | [] => cur
  | (marker, sname) :: ms' =>
      if contains marker line then sname else first_marker ms' line cur
  end.

(** What [RE_ACTION] contributes for one line. *)
Definition action_of (hid : option str) (st : street) (line : str)
  : res (list action) :=
  match re_match RE_ACTION line with
  | Some ma =>
      p <- method (group ma "player") ;;;
      v <- method (group ma "verb") ;;;
      Ok [{| a_hand_id := hid; a_street := st; a_player := strip p;
             a_action := strip (str_lower v);
             a_amount := to_float_safe (group ma "amt") |}]
  | None => Ok []
  end.

(** What [RE_RETURN] contributes for one line. *)
Definition return_of (hid : option str) (st : street) (line : str)
  : res (list action) :=
  match re_match RE_RETURN line with
  | Some mr =>
      p <- method (group mr "player") ;;;
      amt <- (if match group mr "amt" with Some (_ :: _) => true | _ => false end
              then py_neg (to_float_safe (group mr "amt"))
              else Ok None) ;;;
      Ok [{| a_hand_id := hid; a_street := st; a_player := strip p;
             a_action := lit "return_uncalled"; a_amount := amt |}]
  | None => Ok []
  end.

(** The single forward pass: the state is the current street and the
    actions appended so far. *)
Fixpoint scan_actions (hid : option str) (lines : list str)
         (st : street) (actions : list action) : res (list action) :=
  match lines with
  | [] => Ok actions
  | line :: rest =>
      let st' := first_marker STREET_MARKERS line st in
      a1 <- action_of hid st' line ;;;
      a2 <- return_of hid st' line ;;;
      scan_actions hid rest st' ((actions ++ a1) ++ a2)
  end.

(** Step 5: the last flop, turn and river found. *)
Definition found (r : regex) (name : string) (line : str) (old : option str)
  : option str :=
  match re_search r line with
  | Some m => group m name
  | None => old
  end.

Fixpoint scan_board (lines : list str) (f t r : option str)
  : option str * option str * option str :=
  match lines with
  | [] => (f, t, r)
  | line :: rest =>
      scan_board rest (found RE_FLOP "flop" line f)
                      (found RE_TURN "turn" line t)
                      (found RE_RIVER "river" line r)
  end.

(** [[p for p in [flop, turn, river] if p]] *)
Fixpoint truthy_parts (ps : list (option str)) : list str :=
  match ps with
  | [] => []
  | Some (c :: s) :: ps' => (c :: s) :: truthy_parts ps'
  | _ :: ps' => truthy_parts ps'
  end.

Definition board_of (lines : list str) : str :=
  let '(f, t, r) := scan_board lines (Some []) (Some []) (Some []) in
  join (lit "|") (truthy_parts [f; t; r]).

(** Step 6: pot and rake of the last summary line, winners in order. *)
Fixpoint scan_summary (lines : list str) (pot rk : option Q)
         (winners : list (str * option Q))
  : res (option Q * option Q * list (str * option Q)) :=
  match lines with
  | [] => Ok (pot, rk, winners)
  | line :: rest =>
      let '(pot', rk') :=
        match re_search RE_SUMMARY_POT line with
        | Some m => (to_float_safe (group m "pot"), to_float_safe (group m "rake"))
        | None => (pot, rk)
        end in
      match re_search RE_COLLECTED line with
      | Some m =>
          p <- method (group m "player") ;;;
          scan_summary rest pot' rk'
            (winners ++ [(strip p, to_float_safe (group m "amt"))])
      | None => scan_summary rest pot' rk' winners
      end
  end.

Definition count (l : list seat) : option Z :=
  match l with
  | [] => None
  | _ => Some (Z.of_nat (List.length l))
  end.

(** The body of the [try] block. *)
Definition parse_hand_body (lines : list str) : res (hand * list action) :=
  let hid := find_hand_id lines in
  li <- find_limit lines ;;;
  seats <- find_seats lines [] ;;;
  btn <- find_button lines ;;;
  actions <- scan_actions hid lines preflop [] ;;;
  sm <- scan_summary lines None None [] ;;;
  let '(pot, rk, winners) := sm in
  match hid with
  | None | Some [] => Raise ValueError
  | Some _ =>
      Ok ({| hand_id := hid;
             site := lit "pokerok";
             game := option_map li_game li;
             limit_type := option_map li_limit li;
             stakes_sb := match li with Some i => li_sb i | None => None end;
             stakes_bb := match li with Some i => li_bb i | None => None end;
             currency := option_map li_cur li;
             players := count seats;
             table_name := None;
             table_size := count seats;
             btn_seat := btn;
             board := board_of lines;
             pot_total := pot;
             rake := rk;
             winner_json := winners;
             parse_warnings := [] |},
          actions)
  end.

End Parse.

Import Parse.

(** [parse_hand]: whatever the body raises, the [except] clause answers
    [(None, [])]. *)
Definition parse_hand (lines : list str) : option hand * list action :=
  match parse_hand_body lines with
  | Ok (h, actions) => (Some h, actions)
  | Raise _ => (None, [])
  end.

(** ** [process_input] *)

(** The [filters] dictionary that [main] builds: each entry is a value or
    [None]. *)
Record filters : Type := {
  f_game : option (list str);
  f_min_players : option Z;
  f_max_players : option Z
}.

(** Truth value of [filters.get('min_players')]: [None] and [0] are
    false. *)
Definition truthy_int (o : option Z) : bool :=
  match o with
  | Some n => negb (n =? 0)%Z
  | None => false
  end.

(** Truth value of [filters.get('game')]: [None] and [[]] are false. *)
Definition truthy_list (o : option (list str)) : bool :=
  match o with
  | Some (_ :: _) => true
  | _ => false
  end.

(** [hand['game'] in filters['game']] *)
Definition game_in (g : option str) (o : option (list str)) : bool :=
  match g, o with
  | Some s, Some gs => existsb (str_eqb s) gs
  | _, _ => false
  end.

(** [hand.get('players', 0)]: the key is always in the dictionary, so the
    default never applies and the value read may be [None]; ordering
    [None] against an [int] raises [TypeError]. *)
Definition players_lt (h : hand) (n : Z) : res bool :=
  match players h with
  | Some p => Ok (p <? n)%Z
  | None => Raise TypeError
  end.

Definition players_gt (h : hand) (n : Z) : res bool :=
  match players h with
  | Some p => Ok (p >? n)%Z
  | None => Raise TypeError
  end.

Definition bound (o : option Z) : Z :=
  match o with
  | Some n => n
  | None => 0%Z
  end.

(** The three [if ...: continue] tests; [Ok true] keeps the hand. *)
Definition passes (f : filters) (h : hand) : res bool :=
  if truthy_list (f_game f) && negb (game_in (game h) (f_game f))
  then Ok false
  else
    lo <- (if truthy_int (f_min_players f)
           then players_lt h (bound (f_min_players f)) else Ok false) ;;;
    if (lo : bool) then Ok false
    else
      hi <- (if truthy_int (f_max_players f)
             then players_gt h (bound (f_max_players f)) else Ok false) ;;;
      Ok (negb hi).

(** The loop over the futures, in submission order. *)
Fixpoint collect (f : filters) (futures : list (option hand * list action))
         (all_hands : list hand) (all_actions : list action)
  : res (list hand * list action) :=
  match futures with
  | [] => Ok (all_hands, all_actions)
  | (None, _) :: rest => collect f rest all_hands all_actions
  | (Some h, actions) :: rest =>
      keep <- passes f h ;;;
      if (keep : bool)
      then collect f rest (all_hands ++ [h]) (all_actions ++ actions)
      else collect f rest all_hands all_actions
  end.

(** [process_input] over the files that [read_hh_files] delivers, each one
    the list of its lines. *)
Definition process_input (files : list (list str)) (f : filters)
  : res (list hand * list action) :=
  collect f (flat_map (fun text_lines =>
                         map parse_hand (split_into_hands text_lines)) files)
          [] [].

(** ** Counting the cards of a board string *)

Definition is_sep (c : ascii) : bool := is_space c || ascii_eqb c "|"%char.

(** Number of maximal runs of characters other than blanks and the bar. *)
Fixpoint count_tokens (inside : bool) (s : str) : nat :=
  match s with
  | [] => 0
  | c :: s' =>
      if is_sep c then count_tokens false s'
      else (if inside then 0 else 1) + count_tokens true s'
  end.

Definition card_count (b : str) : nat := count_tokens false b.

(** * Vocabulary of the properties *)

Module ReSem.

(** [denote r pos c rest e e']: [r] can consume [c] at offset [pos] with
    [rest] following, turning the groups [e] into [e']. *)
Fixpoint denote (r : regex) (pos : nat) (c rest : str) (e e' : env) : Prop :=
  match r with
  | Eps => c = [] /\ e' = e
  | Bol => c = [] /\ pos = 0 /\ e' = e
  | Eol => c = [] /\ (rest = [] \/ exists x, rest = [x] /\ is_newline x = true)
           /\ e' = e
  | Chr p => exists x, c = [x] /\ p x = true /\ e' = e
  | Seq a b =>
      exists c1 c2 e1, c = c1 ++ c2 /\ denote a pos c1 (c2 ++ rest) e e1 /\
                       denote b (pos + List.length c1) c2 rest e1 e'
  | Alt a b => denote a pos c rest e e' \/ denote b pos c rest e e'
  | Opt a => denote a pos c rest e e' \/ (c = [] /\ e' = e)
  | Star p | LazyStar p => forallb p c = true /\ e' = e
  | Group n a => exists e1, denote a pos c rest e e1 /\ e' = (n, c) :: e1
  end.

(** Patterns without groups. *)
Fixpoint groupless (r : regex) : bool :=
  match r with
  | Seq a b | Alt a b => groupless a && groupless b
  | Opt a => groupless a
  | Group _ _ => false
  | _ => true
  end.

(** [captures P r]: what a group [n] of [r] consumes satisfies [P n]. *)
Fixpoint captures (P : string -> str -> Prop) (r : regex) : Prop :=
  match r with
  | Seq a b | Alt a b => captures P a /\ captures P b
  | Opt a => captures P a
  | Group n a =>
      (forall pos c rest e e', denote a pos c rest e e' -> P n c) /\
      captures P a
  | _ => True
  end.

(** [sets n r]: every match of [r] sets the group [n]. *)
Fixpoint sets (n : string) (r : regex) : bool :=
  match r with
  | Seq a b => sets n a || sets n b
  | Alt a b => sets n a && sets n b
  | Group n' a => String.eqb n n' || sets n a
  | _ => false
  end.

End ReSem.

Import ReSem.

(** A captured board part: a non-empty string of [n] cards. *)
Definition part_ok (n : nat) (o : option str) : Prop :=
  exists c s, o = Some (c :: s) /\ card_count (c :: s) = n.

(** The groups whose text goes to [to_float_safe], and those whose text
    goes to [int]. *)
Definition decimal_group (n : string) : bool :=
  existsb (String.eqb n) ["sb"; "bb"; "stack"; "amt"; "pot"; "rake"]%string.

Definition digit_group (n : string) : bool :=
  existsb (String.eqb n) ["seat"; "btn"]%string.

(** What the patterns guarantee about a captured token. *)
Definition token_ok (n : string) (t : str) : Prop :=
  (decimal_group n = true -> t <> [] /\ forallb num_char t = true) /\
  (digit_group n = true -> t <> [] /\ forallb is_digit t = true) /\
  (n = "hand_id"%string -> t <> []).

(** The patterns of the module. *)
Definition all_patterns : list regex :=
  [ RE_HAND_HEADER; RE_LIMIT; RE_SEAT; RE_BUTTON; RE_ACTION; RE_RETURN;
    RE_FLOP; RE_TURN; RE_RIVER; RE_SUMMARY_POT; RE_COLLECTED ].

(** An uncalled-bet line whose amount is not a number. *)
Definition bad_return (line : str) : bool :=
  match re_match RE_RETURN line with
  | Some mr =>
      match to_float_safe (group mr "amt") with
      | Some _ => false
      | None => true
      end
  | None => false
  end.

(** Some line of the block is found by the pattern. *)
Definition has_line (r : regex) (lines : list str) : bool :=
  existsb (fun l => match re_search r l with Some _ => true | None => false end)
          lines.

(** One component of the state of [scan_board]. *)
Fixpoint last_found (r : regex) (name : string) (lines : list str)
         (old : option str) : option str :=
  match lines with
  | [] => old
  | line :: rest => last_found r name rest (found r name line old)
  end.

(** An action that carries the [hand_id] of one of the hands. *)
Definition owned_by (hs : list hand) (a : action) : Prop :=
  exists h, In h hs /\ a_hand_id a = hand_id h /\ hand_id h <> None.

(** [produced hid st line la]: [la] is what the two action patterns
    contribute for [line] on street [st], the player action first. *)
Definition produced (hid : option str) (st : street) (line : str)
           (la : list action) : Prop :=
  exists a1 a2, action_of hid st line = Ok a1 /\
                return_of hid st line = Ok a2 /\ la = a1 ++ a2.

(** A block whose first line is a header. *)
Definition starts_with_header (b : list str) : Prop :=
  exists l rest, b = l :: rest /\ is_header l = true.

(** A line as text-mode iteration over a file yields it: no newline
    except, possibly, one at the very end. *)
Definition text_line (l : str) : Prop :=
  exists s, forallb (fun c => negb (is_newline c)) s = true /\
            (l = s \/ exists x, l = s ++ [x] /\ is_newline x = true).

(** * Sample inputs *)

Module Samples.

Local Open Scope string_scope.

(** A line as file iteration yields it: the text and its newline. *)
Definition ln (s : string) : str := (lit s ++ [newline])%list.

(** The block of the module's self-test, [TEST_HAND.strip().split('\n')]. *)
Definition TEST_HAND : list str := map lit [
  "Hand #123456789";
  "Table: NL Hold'em ($0.01/$0.02 USD)";
  "Seat 1: Hero (2.00)";
  "Seat 2: Villain (2.00)";
  "Hero posts small blind 0.01";
  "Villain posts big blind 0.02";
  "*** HOLE CARDS ***";
  "Hero: raises to 0.06";
  "Villain: calls 0.04";
  "*** FLOP *** [Ah Kd 7s]";
  "Hero: bets 0.10";
  "Villain: folds";
  "Uncalled bet of 0.10 returned to Hero";
  "Hero collected 0.12 from pot";
  "*** SUMMARY ***";
  "Total pot 0.12 | Rake 0.00" ].

(** The same block with the stakes written without currency signs. *)
Definition plain_stakes_hand : list str := map lit [
  "Hand #123456789";
  "Table: NL Hold'em (0.01/0.02 USD)";
  "Seat 1: Hero (2.00)";
  "Seat 2: Villain (2.00)" ].

Definition headerless_block : list str := map lit [
  "Seat 1: Hero (2.00)";
  "Hero: bets 0.10" ].

Definition turn_only_block : list str := map lit [
  "Hand #42";
  "*** TURN *** [Td]" ].

Definition turn_river_block : list str := map lit [
  "Hand #43";
  "*** TURN *** [Td]";
  "*** RIVER *** [2c]" ].

Definition full_board_block : list str := map lit [
  "Hand #44";
  "*** FLOP *** [Ah Kd 7s]";
  "*** TURN *** [Ah Kd 7s] [Td]";
  "*** RIVER *** [Ah Kd 7s Td] [2c]" ].

Definition bad_return_block : list str := map lit [
  "Hand #55";
  "Hero: bets 0.10";
  "Uncalled bet of 1.2.3 returned to Hero" ].

Definition good_return_block : list str := map lit [
  "Hand #55";
  "Hero: bets 0.10";
  "Uncalled bet of 1.23 returned to Hero" ].

Definition comma_stakes_block : list str := map lit [
  "Hand #66";
  "NL Hold'em (0,01/0,02)" ].

Definition dot_stakes_block : list str := map lit [
  "Hand #66";
  "NL Hold'em (0.01/0.02)" ].

(** A file of two hands: the first has seat lines, the second has none. *)
Definition two_hands_file : list str := [
  ln "Hand #1";
  ln "Seat 1: Hero (2.00)";
  ln "Seat 2: Villain (2.00)";
  ln "Hero: bets 0.10";
  ln "Hand #2";
  ln "Villain: folds" ].

Definition seatless_file : list str := [ ln "Hand #77"; ln "Hero: checks" ].

(** A file that starts in the middle of a hand. *)
Definition mid_hand_file : list str := [
  ln "Villain: folds";
  ln "Hero collected 0.12 from pot";
  ln "Hand #2";
  ln "Hero: checks" ].

Definition no_filters : filters :=
  {| f_game := None; f_min_players := None; f_max_players := None |}.

End Samples.

Import Samples.

(** * Vocabulary of the further properties *)

(** [pattern.match(line)] and [pattern.search(line)] as tests. *)
Definition matches (r : regex) (line : str) : bool :=
  match re_match r line with
  | Some _ => true
  | None => false
  end.

Definition finds (r : regex) (line : str) : bool :=
  match re_search r line with
  | Some _ => true
  | None => false
  end.

(** Number of lines that pass a test. *)
Definition count_lines (test : str -> bool) (lines : list str) : nat :=
  List.length (filter test lines).

(** A line that no pattern of the module finds and that holds no street
    marker. *)
Definition inert (line : str) : bool :=
  forallb (fun r => negb (finds r line)) all_patterns
  && forallb (fun m => negb (contains (fst m) line)) STREET_MARKERS.


(** The winner entry that a line contributes, if [RE_COLLECTED] finds
    it. *)
Definition winner_of (line : str) : list (str * option Q) :=
  match re_search RE_COLLECTED line with
  | Some m =>
      match group m "player" with
      | Some p => [(strip p, to_float_safe (group m "amt"))]
      | None => []
      end
  | None => []
  end.

(** The 256 characters. *)
Definition all_ascii : list ascii := map ascii_of_nat (seq 0 256).

(** The verbs that [RE_ACTION] lets through, as [parse_hand] stores them:
    lower case, without surrounding blanks. *)
Definition fixed_verbs : list str :=
  map lit ["bets"; "checks"; "calls"; "folds"; "straddle"; "all-in";
           "allin"]%string.

Definition verb_ok (s : str) : Prop :=
  In s fixed_verbs \/
  (exists ws, ws <> [] /\ forallb is_space ws = true /\
              s = lit "raises" ++ ws ++ lit "to") \/
  prefixb (lit "posts") s = true.

(** What [RE_ACTION] guarantees about the verb it captures. *)
Definition verb_token (n : string) (t : str) : Prop :=
  n = "verb"%string -> verb_ok (strip (str_lower t)).

(** The sign of the amount of an action: an uncalled-bet record carries an
    amount that is not positive, any other record carries none or one that
    is not negative. *)
Definition amount_sign_ok (a : action) : Prop :=
  match a_amount a with
  | Some q =>
      if str_eqb (a_action a) (lit "return_uncalled")
      then (q <= 0)%Q else (0 <= q)%Q
  | None => str_eqb (a_action a) (lit "return_uncalled") = false
  end.

(** The street of an action is the initial one or one whose marker stands
    on some line of the block. *)
Definition street_seen (lines : list str) (st : street) : Prop :=
  st = preflop \/
  exists line marker,
    In line lines /\ In (marker, st) STREET_MARKERS /\
    contains marker line = true.





(** A block with no header line after its first line. *)
Definition headed (b : list str) : Prop :=
  exists x tl, b = x :: tl /\ Forall (fun l => is_header l = false) tl.

(** The results that [process_input] collects from the pool, in
    submission order. *)
Definition pool_results (files : list (list str))
  : list (option hand * list action) :=
  flat_map (fun text_lines => map parse_hand (split_into_hands text_lines))
           files.

(** The hands among them, each with its actions. *)
Fixpoint successes (fs : list (option hand * list action))
  : list (hand * list action) :=
  match fs with
  | [] => []
  | (Some h, a) :: rest => (h, a) :: successes rest
  | (None, _) :: rest => successes rest
  end.

(** The filter keeps the hand, or raises on it. *)
Definition keeps (f : filters) (p : hand * list action) : bool :=
  match passes f (fst p) with
  | Ok true => true
  | _ => false
  end.

Definition raises (f : filters) (p : hand * list action) : bool :=
  match passes f (fst p) with
  | Raise _ => true
  | Ok _ => false
  end.

(** The hand meets every predicate that is in force. *)
Definition satisfies (f : filters) (h : hand) : Prop :=
  (truthy_list (f_game f) = true -> game_in (game h) (f_game f) = true) /\
  (truthy_int (f_min_players f) = true ->
   exists p, players h = Some p /\ (bound (f_min_players f) <= p)%Z) /\
  (truthy_int (f_max_players f) = true ->
   exists p, players h = Some p /\ (p <= bound (f_max_players f))%Z).

(** * Properties of the matcher *)

Module ReFacts.

Lemma star_sound p k : forall s pos e res,
  star p k pos s e = Some res ->
  exists c rest, s = c ++ rest /\ forallb p c = true /\
                 k (pos + List.length c) rest e = Some res.
Proof.
  induction s as [|x s IH]; intros pos e res H; simpl in H.
  - exists [], []. rewrite Nat.add_0_r. auto.
  - destruct (p x) eqn:Hp.
    + destruct (star p k (S pos) s e) eqn:Hs.
      * inversion H; subst. apply IH in Hs.
        destruct Hs as (c & rest & -> & Hc & Hk).
        exists (x :: c), rest. simpl. rewrite Hp, Hc.
        rewrite <- plus_n_Sm. auto.
      * exists [], (x :: s). rewrite Nat.add_0_r. auto.
    + exists [], (x :: s). rewrite Nat.add_0_r. auto.
Qed.

Lemma lazystar_sound p k : forall s pos e res,
  lazystar p k pos s e = Some res ->
  exists c rest, s = c ++ rest /\ forallb p c = true /\
                 k (pos + List.length c) rest e = Some res.
Proof.
  induction s as [|x s IH]; intros pos e res H; simpl in H.
  - destruct (k pos [] e) eqn:Hk; [|discriminate].
    exists [], []. rewrite Nat.add_0_r. inversion H; subst. auto.
  - destruct (k pos (x :: s) e) eqn:Hk.
    + exists [], (x :: s). rewrite Nat.add_0_r. inversion H; subst. auto.
    + destruct (p x) eqn:Hp; [|discriminate].
      apply IH in H. destruct H as (c & rest & -> & Hc & Hk').
      exists (x :: c), rest. simpl. rewrite Hp, Hc.
      rewrite <- plus_n_Sm. auto.
Qed.

(** Soundness: a successful run has consumed a prefix in the denotation
    of the pattern, and the continuation succeeded on what is left. *)
Lemma run_sound : forall r k pos s e res,
  run r k pos s e = Some res ->
  exists c rest e', s = c ++ rest /\ denote r pos c rest e e' /\
                    k (pos + List.length c) rest e' = Some res.
Proof.
  induction r; intros k pos s e res H; simpl in H.
  - exists [], s, e. rewrite Nat.add_0_r. simpl. intuition eauto.
  - destruct (pos =? 0) eqn:Hpos; [|discriminate].
    apply Nat.eqb_eq in Hpos.
    exists [], s, e. rewrite Nat.add_0_r. simpl. intuition eauto.
  - destruct s as [|x [|y s]]; try discriminate.
    + exists [], [], e. rewrite Nat.add_0_r. simpl. intuition eauto.
    + destruct (is_newline x) eqn:Hx; [|discriminate].
      exists [], [x], e. rewrite Nat.add_0_r. simpl.
      intuition eauto.
  - destruct s as [|x s]; [discriminate|].
    destruct (p x) eqn:Hp; [|discriminate].
    exists [x], s, e. simpl. rewrite Nat.add_1_r. eauto 6.
  - apply IHr1 in H. destruct H as (c1 & rest1 & e1 & -> & Ha & H).
    apply IHr2 in H. destruct H as (c2 & rest & e2 & -> & Hb & H).
    exists (c1 ++ c2), rest, e2. rewrite <- app_assoc.
    rewrite length_app, Nat.add_assoc. simpl. eauto 8.
  - destruct (run r1 k pos s e) eqn:H1.
    + inversion H; subst. apply IHr1 in H1.
      destruct H1 as (c & rest & e' & -> & Hd & Hk).
      exists c, rest, e'. simpl. intuition eauto.
    + apply IHr2 in H. destruct H as (c & rest & e' & -> & Hd & Hk).
      exists c, rest, e'. simpl. intuition eauto.
  - destruct (run r k pos s e) eqn:H1.
    + inversion H; subst. apply IHr in H1.
      destruct H1 as (c & rest & e' & -> & Hd & Hk).
      exists c, rest, e'. simpl. intuition eauto.
    + exists [], s, e. rewrite Nat.add_0_r. simpl. intuition eauto.
  - apply star_sound in H. destruct H as (c & rest & -> & Hc & Hk).
    exists c, rest, e. simpl. intuition eauto.
  - apply lazystar_sound in H. destruct H as (c & rest & -> & Hc & Hk).
    exists c, rest, e. simpl. intuition eauto.
  - apply IHr in H. destruct H as (c & rest & e' & -> & Hd & Hk).
    replace (pos + List.length c - pos) with (List.length c) in Hk by lia.
    rewrite firstn_app, firstn_all, Nat.sub_diag in Hk. simpl in Hk.
    rewrite app_nil_r in Hk.
    exists c, rest, ((name, c) :: e'). simpl. eauto.
Qed.

Lemma star_complete p k : forall c pos rest e,
  forallb p c = true ->
  k (pos + List.length c) rest e <> None ->
  star p k pos (c ++ rest) e <> None.
Proof.
  induction c as [|x c IH]; intros pos rest e Hc Hk; simpl in *.
  - rewrite Nat.add_0_r in Hk.
    destruct rest as [|y rest]; simpl; auto.
    destruct (p y); auto.
    destruct (star p k (S pos) rest e); auto. discriminate.
  - apply andb_true_iff in Hc. destruct Hc as [Hx Hc]. rewrite Hx.
    rewrite <- plus_n_Sm in Hk.
    specialize (IH (S pos) rest e Hc Hk).
    destruct (star p k (S pos) (c ++ rest) e); [discriminate|auto].
Qed.

Lemma lazystar_complete p k : forall c pos rest e,
  forallb p c = true ->
  k (pos + List.length c) rest e <> None ->
  lazystar p k pos (c ++ rest) e <> None.
Proof.
  induction c as [|x c IH]; intros pos rest e Hc Hk; simpl in *.
  - rewrite Nat.add_0_r in Hk.
    destruct rest as [|y rest]; simpl;
      destruct (k pos _ e); try discriminate; congruence.
  - apply andb_true_iff in Hc. destruct Hc as [Hx Hc]. rewrite Hx.
    rewrite <- plus_n_Sm in Hk.
    destruct (k pos (x :: c ++ rest) e); [discriminate|].
    apply IH; auto.
Qed.

(** Completeness: if the pattern can consume a prefix after which the
    continuation succeeds, the run does not fail. *)
Lemma run_complete : forall r k pos c rest e e',
  denote r pos c rest e e' ->
  k (pos + List.length c) rest e' <> None ->
  run r k pos (c ++ rest) e <> None.
Proof.
  induction r; intros k pos c rest e e' Hd Hk; simpl in Hd |- *.
  - destruct Hd as [-> ->]. rewrite Nat.add_0_r in Hk. auto.
  - destruct Hd as (-> & -> & ->). simpl in *. auto.
  - destruct Hd as (-> & Hrest & ->). rewrite Nat.add_0_r in Hk. simpl.
    destruct Hrest as [->|(x & -> & Hx)]; auto. rewrite Hx. auto.
  - destruct Hd as (x & -> & Hp & ->). simpl. rewrite Hp.
    rewrite Nat.add_1_r in Hk. auto.
  - destruct Hd as (c1 & c2 & e1 & -> & Ha & Hb).
    rewrite <- app_assoc. eapply IHr1; eauto.
    eapply IHr2; eauto.
    rewrite length_app, Nat.add_assoc in Hk. auto.
  - destruct Hd as [Hd|Hd].
    + specialize (IHr1 k pos c rest e e' Hd Hk).
      destruct (run r1 k pos (c ++ rest) e); [discriminate|auto].
    + specialize (IHr2 k pos c rest e e' Hd Hk).
      destruct (run r1 k pos (c ++ rest) e); [discriminate|auto].
  - destruct Hd as [Hd|[-> ->]].
    + specialize (IHr k pos c rest e e' Hd Hk).
      destruct (run r k pos (c ++ rest) e); [discriminate|auto].
    + rewrite Nat.add_0_r in Hk. simpl.
      destruct (run r k pos rest e); [discriminate|auto].
  - destruct Hd as [Hc ->]. apply star_complete; auto.
  - destruct Hd as [Hc ->]. apply lazystar_complete; auto.
  - destruct Hd as (e1 & Hd & ->).
    eapply IHr; eauto. simpl.
    replace (pos + List.length c - pos) with (List.length c) by lia.
    rewrite firstn_app, firstn_all, Nat.sub_diag. simpl.
    rewrite app_nil_r. auto.
Qed.

Lemma match_sound r s m :
  re_match r s = Some m ->
  exists c rest, s = c ++ rest /\ denote r 0 c rest [] m.
Proof.
  unfold re_match. intros H. apply run_sound in H.
  destruct H as (c & rest & e' & -> & Hd & Hk).
  unfold accept in Hk. inversion Hk; subst. eauto.
Qed.

Lemma match_complete r c rest m :
  denote r 0 c rest [] m -> re_match r (c ++ rest) <> None.
Proof.
  intros H. unfold re_match. eapply run_complete; eauto.
  unfold accept. discriminate.
Qed.

Lemma search_from_sound r : forall s pos m,
  search_from r pos s = Some m ->
  exists pre c rest, s = pre ++ c ++ rest /\
                     denote r (pos + List.length pre) c rest [] m.
Proof.
  induction s as [|x s IH]; intros pos m H; simpl in H.
  - destruct (run r accept pos [] []) eqn:Hr; [|discriminate].
    inversion H; subst. apply run_sound in Hr.
    destruct Hr as (c & rest & e' & Hs & Hd & Hk).
    unfold accept in Hk. inversion Hk; subst.
    exists [], c, rest. simpl. rewrite Nat.add_0_r. auto.
  - destruct (run r accept pos (x :: s) []) eqn:Hr.
    + inversion H; subst. apply run_sound in Hr.
      destruct Hr as (c & rest & e' & Hs & Hd & Hk).
      unfold accept in Hk. inversion Hk; subst.
      exists [], c, rest. simpl. rewrite Nat.add_0_r. auto.
    + apply IH in H. destruct H as (pre & c & rest & -> & Hd).
      exists (x :: pre), c, rest. simpl. rewrite <- plus_n_Sm. auto.
Qed.

Lemma search_sound r s m :
  re_search r s = Some m ->
  exists pre c rest, s = pre ++ c ++ rest /\
                     denote r (List.length pre) c rest [] m.
Proof.
  intros H. apply search_from_sound in H. exact H.
Qed.

End ReFacts.

Import ReFacts.

(** * Tokens and groups *)

Module Tokens.

Lemma groupless_captures P : forall r, groupless r = true -> captures P r.
Proof.
  induction r; simpl; intros H; auto;
    try (apply andb_true_iff in H; destruct H; auto).
  discriminate.
Qed.

Lemma group_head (e : env) (n n' : string) (c : str) :
  group ((n', c) :: e) n = if String.eqb n n' then Some c else group e n.
Proof. reflexivity. Qed.

Lemma denote_captures P : forall r pos c rest e e',
  captures P r -> denote r pos c rest e e' ->
  (forall n t, group e n = Some t -> P n t) ->
  forall n t, group e' n = Some t -> P n t.
Proof.
  induction r; intros pos c rest e e' Hc Hd He; simpl in Hc, Hd.
  - destruct Hd as [_ ->]. exact He.
  - destruct Hd as (_ & _ & ->). exact He.
  - destruct Hd as (_ & _ & ->). exact He.
  - destruct Hd as (x & _ & _ & ->). exact He.
  - destruct Hc as [Ha Hb]. destruct Hd as (c1 & c2 & e1 & _ & Hda & Hdb).
    eapply IHr2; [exact Hb|exact Hdb|]. eapply IHr1; eauto.
  - destruct Hc as [Ha Hb]. destruct Hd as [Hd|Hd]; eauto.
  - destruct Hd as [Hd|[_ ->]]; eauto.
  - destruct Hd as [_ ->]. exact He.
  - destruct Hd as [_ ->]. exact He.
  - destruct Hc as [Hn Ha]. destruct Hd as (e1 & Hd & ->).
    intros n t. rewrite group_head.
    destruct (String.eqb n name) eqn:E.
    + apply String.eqb_eq in E. subst n. intros Ht. inversion Ht; subst.
      eapply Hn. exact Hd.
    + eapply IHr; eauto.
Qed.

Lemma denote_sets n : forall r pos c rest e e',
  denote r pos c rest e e' ->
  (group e n <> None -> group e' n <> None) /\
  (sets n r = true -> group e' n <> None).
Proof.
  induction r; intros pos c rest e e' Hd; simpl in Hd; simpl sets.
  - destruct Hd as [_ ->]. split; [auto|discriminate].
  - destruct Hd as (_ & _ & ->). split; [auto|discriminate].
  - destruct Hd as (_ & _ & ->). split; [auto|discriminate].
  - destruct Hd as (x & _ & _ & ->). split; [auto|discriminate].
  - destruct Hd as (c1 & c2 & e1 & _ & Ha & Hb).
    apply IHr1 in Ha. apply IHr2 in Hb.
    destruct Ha as [Ha1 Ha2], Hb as [Hb1 Hb2]. split; [auto|].
    intros H. apply orb_true_iff in H. destruct H; auto.
  - split.
    + destruct Hd as [Hd|Hd]; [apply IHr1 in Hd|apply IHr2 in Hd]; tauto.
    + intros H. apply andb_true_iff in H. destruct H as [H1 H2].
      destruct Hd as [Hd|Hd]; [apply IHr1 in Hd|apply IHr2 in Hd]; tauto.
  - split; [|discriminate].
    destruct Hd as [Hd|[_ ->]]; [apply IHr in Hd; tauto|auto].
  - destruct Hd as [_ ->]. split; [auto|discriminate].
  - destruct Hd as [_ ->]. split; [auto|discriminate].
  - destruct Hd as (e1 & Hd & ->). apply IHr in Hd. destruct Hd as [H1 H2].
    rewrite group_head. destruct (String.eqb n name); simpl.
    + split; discriminate.
    + split; auto.
Qed.

(** A match object comes from the denotation of its pattern. *)
Lemma matched r line m :
  re_match r line = Some m \/ re_search r line = Some m ->
  exists pos c rest, denote r pos c rest [] m.
Proof.
  intros [H|H].
  - apply match_sound in H. destruct H as (c & rest & _ & H). eauto.
  - apply search_sound in H. destruct H as (pre & c & rest & _ & H). eauto.
Qed.

Lemma group_set r n line m :
  re_match r line = Some m \/ re_search r line = Some m ->
  sets n r = true -> exists t, group m n = Some t.
Proof.
  intros H Hs. apply matched in H. destruct H as (pos & c & rest & H).
  apply (denote_sets n) in H. destruct H as [_ H]. specialize (H Hs).
  destruct (group m n) as [t|]; [eauto|congruence].
Qed.

Lemma group_token r n line m t :
  re_match r line = Some m \/ re_search r line = Some m ->
  captures token_ok r -> group m n = Some t -> token_ok n t.
Proof.
  intros H Hc Hg. apply matched in H. destruct H as (pos & c & rest & H).
  eapply denote_captures; eauto. intros n0 t0 H0. discriminate.
Qed.

Lemma plus_shape p pos c rest e e' :
  denote (Plus p) pos c rest e e' -> c <> [] /\ forallb p c = true.
Proof.
  intros H. simpl in H.
  destruct H as (c1 & c2 & e1 & -> & (x & -> & Hx & _) & (Hw & _)).
  split; [discriminate|]. simpl. rewrite Hx, Hw. reflexivity.
Qed.

(** The obligation of one group: either its name is of no concern, or its
    body is a non-empty repetition of the right class. *)
Ltac token_group :=
  let Hd := fresh "Hd" in
  let Hn := fresh "Hn" in
  intros ? ? ? ? ? Hd; unfold token_ok;
  split; [|split]; intro Hn;
  try (vm_compute in Hn; discriminate Hn);
  apply plus_shape in Hd; tauto.

Ltac token_pattern :=
  first
    [ apply groupless_captures; reflexivity
    | lazymatch goal with
      | |- captures _ (Group _ _) => split; [token_group|token_pattern]
      | |- captures ?P (Opt ?a) => change (captures P a); token_pattern
      | |- captures _ _ => split; token_pattern
      end ].

(** Every pattern of the module captures well-formed tokens: decimal
    groups hold digits and points, integer groups hold digits, and
    [hand_id] is not empty. *)
Lemma patterns_capture_tokens : Forall (captures token_ok) all_patterns.
Proof.
  unfold all_patterns.
  repeat match goal with
         | |- Forall _ (_ :: _) => apply Forall_cons
         | |- Forall _ [] => apply Forall_nil
         end;
    cbv delta [RE_HAND_HEADER RE_LIMIT RE_SEAT RE_BUTTON RE_ACTION RE_RETURN
               RE_FLOP RE_TURN RE_RIVER RE_SUMMARY_POT RE_COLLECTED];
    token_pattern.
Qed.

Lemma pattern_tokens r :
  In r all_patterns -> captures token_ok r.
Proof.
  intros H. pose proof patterns_capture_tokens as HF.
  rewrite Forall_forall in HF. auto.
Qed.

(** [int] does not raise on what the integer groups capture. *)
Lemma py_int_digits (t : str) :
  t <> [] -> forallb is_digit t = true -> py_int (Some t) = Ok (digits_val t).
Proof.
  intros Hne Hd. unfold py_int. destruct t; [congruence|].
  rewrite Hd. reflexivity.
Qed.

End Tokens.

Import Tokens.

(** * When [parse_hand] fails *)

Module Failure.

Local Open Scope string_scope.

Ltac pattern_in := unfold all_patterns; simpl; tauto.

Lemma find_limit_ok : forall lines, exists v, find_limit lines = Ok v.
Proof.
  induction lines as [|l lines IH]; simpl; [eauto|].
  destruct (re_search RE_LIMIT l) as [m|] eqn:E; [|exact IH].
  destruct (@group_set RE_LIMIT "limit" l m (or_intror E) eq_refl) as (a & ->).
  destruct (@group_set RE_LIMIT "game" l m (or_intror E) eq_refl) as (b & ->).
  simpl. eauto.
Qed.

Lemma find_seats_ok : forall lines acc, exists v, find_seats lines acc = Ok v.
Proof.
  induction lines as [|l lines IH]; intros acc; simpl; [eauto|].
  destruct (re_match RE_SEAT l) as [m|] eqn:E; [|apply IH].
  destruct (@group_set RE_SEAT "seat" l m (or_introl E) eq_refl) as (a & Ha).
  destruct (@group_set RE_SEAT "name" l m (or_introl E) eq_refl) as (b & ->).
  assert (Ht : token_ok "seat" a).
  { eapply group_token; [left; exact E| |exact Ha].
    apply pattern_tokens. pattern_in. }
  destruct Ht as (_ & Hd & _). destruct (Hd eq_refl) as [Hne Hdig].
  rewrite Ha.
  rewrite (py_int_digits Hne Hdig). simpl. apply IH.
Qed.

Lemma find_button_ok : forall lines, exists v, find_button lines = Ok v.
Proof.
  induction lines as [|l lines IH]; simpl; [eauto|].
  destruct (re_search RE_BUTTON l) as [m|] eqn:E; [|exact IH].
  destruct (@group_set RE_BUTTON "btn" l m (or_intror E) eq_refl) as (a & Ha).
  assert (Ht : token_ok "btn" a).
  { eapply group_token; [right; exact E| |exact Ha].
    apply pattern_tokens. pattern_in. }
  destruct Ht as (_ & Hd & _). destruct (Hd eq_refl) as [Hne Hdig].
  rewrite Ha, (py_int_digits Hne Hdig). simpl. eauto.
Qed.

Lemma scan_summary_ok : forall lines pot rk winners,
  exists v, scan_summary lines pot rk winners = Ok v.
Proof.
  induction lines as [|l lines IH]; intros pot rk winners; simpl; [eauto|].
  destruct (re_search RE_SUMMARY_POT l) as [ms|];
    destruct (re_search RE_COLLECTED l) as [m|] eqn:E; try apply IH.
  - destruct (@group_set RE_COLLECTED "player" l m (or_intror E) eq_refl)
      as (a & ->). simpl. apply IH.
  - destruct (@group_set RE_COLLECTED "player" l m (or_intror E) eq_refl)
      as (a & ->). simpl. apply IH.
Qed.

Lemma action_of_ok hid st line : exists v, action_of hid st line = Ok v.
Proof.
  unfold action_of.
  destruct (re_match RE_ACTION line) as [m|] eqn:E; [|eauto].
  destruct (@group_set RE_ACTION "player" line m (or_introl E) eq_refl)
    as (a & ->).
  destruct (@group_set RE_ACTION "verb" line m (or_introl E) eq_refl)
    as (b & ->).
  simpl. eauto.
Qed.

(** The uncalled-bet line is the one place where an amount that is not a
    number raises. *)
Lemma return_of_cases hid st line :
  if bad_return line then return_of hid st line = Raise TypeError
  else exists v, return_of hid st line = Ok v.
Proof.
  unfold bad_return, return_of.
  destruct (re_match RE_RETURN line) as [m|] eqn:E; [|eauto].
  destruct (@group_set RE_RETURN "player" line m (or_introl E) eq_refl)
    as (a & ->).
  destruct (@group_set RE_RETURN "amt" line m (or_introl E) eq_refl)
    as (t & Ht).
  assert (Hok : token_ok "amt" t).
  { eapply group_token; [left; exact E| |exact Ht].
    apply pattern_tokens. pattern_in. }
  destruct Hok as (Hd & _). destruct (Hd eq_refl) as [Hne _].
  rewrite Ht. destruct t as [|c t]; [congruence|].
  match goal with
  | |- context [to_float_safe ?x] => destruct (to_float_safe x)
  end; simpl; eauto.
Qed.

Lemma scan_actions_cases hid : forall lines st acc,
  if existsb bad_return lines
  then scan_actions hid lines st acc = Raise TypeError
  else exists v, scan_actions hid lines st acc = Ok v.
Proof.
  induction lines as [|l lines IH]; intros st acc; [simpl; eauto|].
  cbn [scan_actions existsb].
  destruct (action_of_ok hid (first_marker STREET_MARKERS l st) l) as (a1 & ->).
  pose proof (return_of_cases hid (first_marker STREET_MARKERS l st) l) as Hr.
  cbn [bind]. destruct (bad_return l); cbn [orb].
  - rewrite Hr. reflexivity.
  - destruct Hr as (a2 & ->). cbn [bind]. apply IH.
Qed.

Lemma find_hand_id_cases : forall lines,
  if existsb is_header lines
  then exists c s, find_hand_id lines = Some (c :: s)
  else find_hand_id lines = None.
Proof.
  induction lines as [|l lines IH]; simpl; [reflexivity|].
  unfold is_header at 1.
  destruct (re_match RE_HAND_HEADER l) as [m|] eqn:E; simpl; [|exact IH].
  destruct (@group_set RE_HAND_HEADER "hand_id" l m (or_introl E) eq_refl)
    as (t & Ht).
  assert (Hok : token_ok "hand_id" t).
  { eapply group_token; [left; exact E| |exact Ht].
    apply pattern_tokens. pattern_in. }
  destruct Hok as (_ & _ & Hid). specialize (Hid eq_refl).
  rewrite Ht. destruct t as [|c t]; [congruence|eauto].
Qed.

(** [parse_hand] fails exactly on the blocks without a header line and on
    the blocks with an uncalled-bet line whose amount is not a number. *)
Lemma parse_hand_fails_iff lines :
  parse_hand lines = (None, []) <->
  existsb is_header lines = false \/ existsb bad_return lines = true.
Proof.
  unfold parse_hand, parse_hand_body.
  destruct (find_limit_ok lines) as (li & ->).
  destruct (find_seats_ok lines []) as (seats & ->).
  destruct (find_button_ok lines) as (btn & ->).
  destruct (scan_summary_ok lines None None []) as ([[pot rk] w] & Hsum).
  pose proof (scan_actions_cases (find_hand_id lines) lines preflop []) as Ha.
  pose proof (find_hand_id_cases lines) as Hid.
  simpl. destruct (existsb bad_return lines).
  - rewrite Ha. simpl. split; auto.
  - destruct Ha as (acts & ->). simpl. rewrite Hsum. simpl.
    destruct (existsb is_header lines).
    + destruct Hid as (c & s & ->). split; [discriminate|].
      intros [H|H]; discriminate.
    + rewrite Hid. split; auto.
Qed.

End Failure.

Import Failure.

(** * The all-or-nothing contract of [parse_hand] *)

Lemma find_hand_id_no_header : forall lines,
  (forall l, In l lines -> is_header l = false) -> find_hand_id lines = None.
Proof.
  induction lines as [|l lines IH]; intros H; simpl; [reflexivity|].
  assert (Hl : is_header l = false) by (apply H; left; reflexivity).
  unfold is_header in Hl.
  destruct (re_match RE_HAND_HEADER l); [discriminate|].
  apply IH. intros l' Hin. apply H. right. exact Hin.
Qed.

Lemma parse_hand_body_no_id : forall lines,
  find_hand_id lines = None -> parse_hand lines = (None, []).
Proof.
  intros lines H. unfold parse_hand, parse_hand_body. rewrite H.
  destruct (find_limit lines); simpl; [|reflexivity].
  destruct (find_seats lines []); simpl; [|reflexivity].
  destruct (find_button lines); simpl; [|reflexivity].
  destruct (scan_actions None lines preflop []); simpl; [|reflexivity].
  destruct (scan_summary lines None None []) as [[[pot rk] w]|]; reflexivity.
Qed.

Lemma action_of_hand_id hid st line l :
  action_of hid st line = Ok l -> Forall (fun a => a_hand_id a = hid) l.
Proof.
  unfold action_of. intros H.
  destruct (re_match RE_ACTION line) as [m|].
  - destruct (group m "player"); simpl in H; [|discriminate].
    destruct (group m "verb"); simpl in H; [|discriminate].
    inversion H; subst. repeat constructor.
  - inversion H; subst. constructor.
Qed.

Lemma return_of_hand_id hid st line l :
  return_of hid st line = Ok l -> Forall (fun a => a_hand_id a = hid) l.
Proof.
  unfold return_of. intros H.
  destruct (re_match RE_RETURN line) as [m|].
  - destruct (group m "player"); simpl in H; [|discriminate].
    match type of H with
    | bind ?x _ = _ => destruct x; simpl in H; [|discriminate]
    end.
    inversion H; subst. repeat constructor.
  - inversion H; subst. constructor.
Qed.

Lemma scan_actions_hand_id hid : forall lines st acc acts,
  scan_actions hid lines st acc = Ok acts ->
  Forall (fun a => a_hand_id a = hid) acc ->
  Forall (fun a => a_hand_id a = hid) acts.
Proof.
  induction lines as [|l lines IH]; intros st acc acts H Hacc; simpl in H.
  - inversion H; subst. exact Hacc.
  - destruct (action_of hid _ l) as [a1|] eqn:H1; simpl in H; [|discriminate].
    destruct (return_of hid _ l) as [a2|] eqn:H2; simpl in H; [|discriminate].
    eapply IH; [exact H|].
    apply Forall_app; split; [apply Forall_app; split|]; auto.
    + eapply action_of_hand_id; eauto.
    + eapply return_of_hand_id; eauto.
Qed.

(** What a successful [parse_hand] returns. *)
Lemma parse_hand_some lines h acts :
  parse_hand lines = (Some h, acts) ->
  (exists c s, hand_id h = Some (c :: s)) /\
  hand_id h = find_hand_id lines /\
  board h = board_of lines /\
  scan_actions (hand_id h) lines preflop [] = Ok acts.
Proof.
  unfold parse_hand, parse_hand_body. intros H.
  destruct (find_limit lines); simpl in H; [|discriminate].
  destruct (find_seats lines []); simpl in H; [|discriminate].
  destruct (find_button lines); simpl in H; [|discriminate].
  destruct (scan_actions (find_hand_id lines) lines preflop []) eqn:Ha;
    simpl in H; [|discriminate].
  destruct (scan_summary lines None None []) as [[[pot rk] w]|];
    simpl in H; [|discriminate].
  destruct (find_hand_id lines) as [[|c s]|] eqn:Hid; try discriminate.
  inversion H; subst; simpl. eauto 6.
Qed.

Lemma parse_hand_failure lines :
  fst (parse_hand lines) = None -> snd (parse_hand lines) = [].
Proof.
  unfold parse_hand.
  destruct (parse_hand_body lines) as [[h acts]|]; simpl; [discriminate|auto].
Qed.

Lemma owned_by_more hs h a : owned_by hs a -> owned_by (hs ++ [h]) a.
Proof.
  intros (h' & Hin & Heq & Hn). exists h'. split; [|auto].
  apply in_or_app. left. exact Hin.
Qed.

Lemma collect_owned f : forall futures hs acts hs' acts',
  (forall h a, In (Some h, a) futures ->
               hand_id h <> None /\ Forall (fun x => a_hand_id x = hand_id h) a) ->
  Forall (owned_by hs) acts ->
  collect f futures hs acts = Ok (hs', acts') ->
  Forall (owned_by hs') acts'.
Proof.
  induction futures as [|[[h|] a] futures IH]; intros hs acts hs' acts' Hf Hacc H;
    simpl in H.
  - inversion H; subst. exact Hacc.
  - destruct (passes f h) as [[|]|]; simpl in H; try discriminate.
    + eapply IH; [| |exact H].
      * intros h0 a0 Hin. apply Hf. right. exact Hin.
      * destruct (Hf h a (or_introl eq_refl)) as [Hn Ha].
        apply Forall_app; split.
        -- eapply Forall_impl; [|exact Hacc]. intros x. apply owned_by_more.
        -- eapply Forall_impl; [|exact Ha]. intros x Hx. exists h.
           split; [apply in_or_app; right; left; reflexivity|auto].
    + eapply IH; [| |exact H]; auto.
      intros h0 a0 Hin. apply Hf. right. exact Hin.
  - eapply IH; [| |exact H]; auto.
    intros h0 a0 Hin. apply Hf. right. exact Hin.
Qed.

Lemma futures_wellformed files h a :
  In (Some h, a)
     (flat_map (fun text_lines => map parse_hand (split_into_hands text_lines))
               files) ->
  hand_id h <> None /\ Forall (fun x => a_hand_id x = hand_id h) a.
Proof.
  intros Hin. apply in_flat_map in Hin. destruct Hin as (fl & _ & Hin).
  apply in_map_iff in Hin. destruct Hin as (blk & Hp & _).
  apply parse_hand_some in Hp. destruct Hp as ((c & s & Hid) & _ & _ & Hs).
  split; [rewrite Hid; discriminate|].
  eapply scan_actions_hand_id; [exact Hs|constructor].
Qed.

(** C1.  A block on which parsing fails, in particular a block without a
    header line, gives no hand and an empty action list; a hand that is
    returned has a non-empty [hand_id] that all its actions carry; and every
    action that [process_input] returns carries the [hand_id] of a hand
    that it returns. *)
Theorem parse_hand_all_or_nothing :
  forall (lines : list str) (files : list (list str)) (f : filters),
    ((forall l, In l lines -> is_header l = false) ->
     parse_hand lines = (None, [])) /\
    (fst (parse_hand lines) = None -> snd (parse_hand lines) = []) /\
    (forall h acts, parse_hand lines = (Some h, acts) ->
       (exists c s, hand_id h = Some (c :: s)) /\
       Forall (fun a => a_hand_id a = hand_id h) acts) /\
    (forall hs acts, process_input files f = Ok (hs, acts) ->
       Forall (owned_by hs) acts).
Proof.
  intros lines files f. repeat split.
  - intros H. apply parse_hand_body_no_id. apply find_hand_id_no_header. exact H.
  - apply parse_hand_failure.
  - apply parse_hand_some in H. tauto.
  - apply parse_hand_some in H. destruct H as (_ & _ & _ & H).
    eapply scan_actions_hand_id; [exact H|constructor].
  - intros hs acts H. unfold process_input in H.
    eapply collect_owned; [| |exact H].
    + apply futures_wellformed.
    + constructor.
Qed.

Lemma parse_hand_all_or_nothing_witness :
  parse_hand headerless_block = (None, []) /\
  snd (parse_hand headerless_block) = [] /\
  (exists hs acts, process_input [two_hands_file] no_filters = Ok (hs, acts) /\
                   Forall (owned_by hs) acts).
Proof.
  destruct (parse_hand_all_or_nothing headerless_block [two_hands_file] no_filters)
    as (H1 & H2 & _ & H4).
  split; [|split].
  - apply H1. intros l [<-|[<-|[]]]; vm_compute; reflexivity.
  - apply H2. vm_compute. reflexivity.
  - destruct (process_input [two_hands_file] no_filters) as [[hs acts]|] eqn:E.
    + exists hs, acts. split; [reflexivity|]. apply H4. reflexivity.
    + vm_compute in E. discriminate.
Defined.

(** * The batch filter *)

Lemma passes_min_zero g hi h :
  passes {| f_game := g; f_min_players := Some 0%Z; f_max_players := hi |} h =
  passes {| f_game := g; f_min_players := None; f_max_players := hi |} h.
Proof. reflexivity. Qed.

Lemma passes_max_zero g lo h :
  passes {| f_game := g; f_min_players := lo; f_max_players := Some 0%Z |} h =
  passes {| f_game := g; f_min_players := lo; f_max_players := None |} h.
Proof. reflexivity. Qed.

Lemma collect_ext f f' :
  (forall h, passes f h = passes f' h) ->
  forall futures hs acts, collect f futures hs acts = collect f' futures hs acts.
Proof.
  intros Hp. induction futures as [|[[h|] a] futures IH]; intros hs acts; simpl.
  - reflexivity.
  - rewrite Hp. destruct (passes f' h) as [[|]|]; simpl; auto.
  - apply IH.
Qed.

(** With no bound in force a hand is kept exactly when the game test
    lets it through. *)
Lemma passes_unbounded g h :
  passes {| f_game := g; f_min_players := None; f_max_players := None |} h =
  Ok (negb (truthy_list g && negb (game_in (game h) g))).
Proof.
  unfold passes. simpl. destruct (truthy_list g && negb (game_in (game h) g));
    reflexivity.
Qed.

(** The filter raises only through the comparison of a missing player
    count with a bound that is in force. *)
Lemma passes_raises f h e :
  passes f h = Raise e ->
  e = TypeError /\ players h = None /\
  (truthy_int (f_min_players f) = true \/ truthy_int (f_max_players f) = true).
Proof.
  unfold passes, players_lt, players_gt.
  destruct (truthy_list (f_game f) && negb (game_in (game h) (f_game f)));
    [discriminate|].
  destruct (truthy_int (f_min_players f)), (truthy_int (f_max_players f)),
    (players h) as [p|]; simpl;
    repeat match goal with
           | |- context [if ?b then _ else _] => destruct b; simpl
           end;
    intros H; inversion H; auto.
Qed.

Lemma collect_unbounded g : forall futures hs acts,
  exists r,
    collect {| f_game := g; f_min_players := None; f_max_players := None |}
            futures hs acts = Ok r.
Proof.
  induction futures as [|[[h|] a] futures IH]; intros hs acts; simpl; eauto.
  rewrite passes_unbounded. simpl.
  destruct (negb (truthy_list g && negb (game_in (game h) g))); apply IH.
Qed.

(** With no player bound configured the batch returns normally, whatever
    the lines are. *)
Lemma process_input_unbounded_ok files g :
  exists r,
    process_input files
      {| f_game := g; f_min_players := None; f_max_players := None |} = Ok r.
Proof. apply collect_unbounded. Qed.

(** C10.  A bound of 0 is the same as no bound: [process_input] returns
    the same result for [min_players = 0] as for [min_players = None], and
    for [max_players = 0] as for [max_players = None], so a zero bound
    excludes no hand. *)
Theorem zero_bound_is_unconfigured :
  forall (files : list (list str)) (g : option (list str)) (lo hi : option Z),
    process_input files
      {| f_game := g; f_min_players := Some 0%Z; f_max_players := hi |} =
    process_input files
      {| f_game := g; f_min_players := None; f_max_players := hi |} /\
    process_input files
      {| f_game := g; f_min_players := lo; f_max_players := Some 0%Z |} =
    process_input files
      {| f_game := g; f_min_players := lo; f_max_players := None |} /\
    (forall h : hand,
       passes {| f_game := g; f_min_players := Some 0%Z;
                 f_max_players := Some 0%Z |} h =
       Ok (negb (truthy_list g && negb (game_in (game h) g)))).
Proof.
  intros files g lo hi. unfold process_input. repeat split.
  - apply collect_ext. intros h. apply passes_min_zero.
  - apply collect_ext. intros h. apply passes_max_zero.
  - intros h. rewrite passes_min_zero, passes_max_zero. apply passes_unbounded.
Qed.

(** A hand whose [players] is [None] meets a bound that is in force: the
    comparison raises. *)
Lemma passes_null_players f h :
  players h = None ->
  truthy_list (f_game f) && negb (game_in (game h) (f_game f)) = false ->
  truthy_int (f_min_players f) = true ->
  passes f h = Raise TypeError.
Proof.
  intros Hp Hg Hlo. unfold passes, players_lt. rewrite Hg, Hlo, Hp. reflexivity.
Qed.

(** C3.  On a file whose only hand has no seat line, [min_players = 1]
    does not exclude the hand: the comparison of [None] with 1 raises
    [TypeError] out of [process_input]. *)
Theorem null_players_min_bound_raises :
  process_input [seatless_file]
    {| f_game := None; f_min_players := Some 1%Z; f_max_players := None |} =
  Raise TypeError.
Proof. vm_compute. reflexivity. Qed.

(** C2.  One hand without seat lines makes the whole batch raise as soon
    as a player bound is configured, although the sibling hand of the same
    file parses and passes; without a bound both hands are returned. *)
Theorem batch_raises_on_seatless_hand :
  process_input [two_hands_file]
    {| f_game := None; f_min_players := None; f_max_players := Some 6%Z |} =
  Raise TypeError /\
  (exists h1 h2 acts,
     process_input [two_hands_file] no_filters = Ok ([h1; h2], acts) /\
     players h1 = Some 2%Z /\ players h2 = None).
Proof.
  split; [vm_compute; reflexivity|].
  do 3 eexists. split; [vm_compute; reflexivity|]. split; reflexivity.
Qed.

(** * The scenario of the self-test *)

Local Open Scope string_scope.

(** C5.  On the block of the self-test the stakes line is not recognised,
    because [RE_LIMIT] wants a digit or a point right after the bracket and
    meets the dollar sign: [game], [limit_type], [stakes_sb], [stakes_bb]
    and [currency] stay [None].  The other fields and the five actions are
    as the scenario says. *)
Theorem test_hand_parse :
  parse_hand TEST_HAND =
  (Some {| hand_id := Some (lit "123456789");
           site := lit "pokerok";
           game := None;
           limit_type := None;
           stakes_sb := None;
           stakes_bb := None;
           currency := None;
           players := Some 2%Z;
           table_name := None;
           table_size := Some 2%Z;
           btn_seat := None;
           board := lit "Ah Kd 7s";
           pot_total := Some (decimal 0.12%Q);
           rake := Some (decimal 0.0%Q);
           winner_json := [(lit "Hero", Some (decimal 0.12%Q))];
           parse_warnings := [] |},
   let act st p v amt :=
     {| a_hand_id := Some (lit "123456789"); a_street := st;
        a_player := lit p; a_action := lit v; a_amount := amt |} in
   [ act preflop "Hero" "raises to" (Some (decimal 0.06%Q));
     act preflop "Villain" "calls" (Some (decimal 0.04%Q));
     act flop "Hero" "bets" (Some (decimal 0.10%Q));
     act flop "Villain" "folds" None;
     act flop "Hero" "return_uncalled" (Some (decimal (- 0.10)%Q)) ]).
Proof. vm_compute. reflexivity. Qed.

(** Without the currency signs in front of the numbers the stakes line of
    the scenario is recognised. *)
Lemma plain_stakes_parse :
  exists h acts,
    parse_hand plain_stakes_hand = (Some h, acts) /\
    game h = Some (lit "holdem") /\ limit_type h = Some (lit "NL") /\
    stakes_sb h = Some (decimal 0.01%Q) /\ stakes_bb h = Some (decimal 0.02%Q) /\
    currency h = Some (lit "USD").
Proof. do 2 eexists. split; [vm_compute; reflexivity|]. repeat split. Qed.

(** * Numeric tokens *)

(** [to_float_safe] itself never raises: it is a total function, and it
    reads a comma as the decimal point. *)
Lemma to_float_safe_examples :
  to_float_safe None = None /\
  to_float_safe (Some (lit "1.2.3")) = None /\
  to_float_safe (Some (lit "0,01")) = Some (decimal 0.01%Q) /\
  to_float_safe (Some (lit "0.01")) = Some (decimal 0.01%Q).
Proof. repeat split. Qed.

(** C7.  An uncalled-bet line whose amount token is not a number makes
    the whole hand fail: [to_float_safe] answers [None], the unary minus
    applied to it raises, and [parse_hand] returns [(None, [])].  With a
    well-formed amount the same block is emitted. *)
Theorem bad_return_amount_fails_hand :
  parse_hand bad_return_block = (None, []) /\
  return_of (Some (lit "55")) preflop
            (lit "Uncalled bet of 1.2.3 returned to Hero") = Raise TypeError /\
  (exists h acts, parse_hand good_return_block = (Some h, acts) /\
                  List.length acts = 2).
Proof.
  split; [vm_compute; reflexivity|]. split; [vm_compute; reflexivity|].
  do 2 eexists. split; [vm_compute; reflexivity|]. reflexivity.
Qed.

(** C8.  A stakes line written with commas is not recognised, since the
    capture classes of [RE_LIMIT] hold digits and points only: the hand is
    emitted with [game], [limit_type], [stakes_sb] and [stakes_bb] all
    [None], whereas the same line written with points sets them. *)
Theorem comma_stakes_not_recognised :
  (exists h acts,
     parse_hand comma_stakes_block = (Some h, acts) /\
     stakes_sb h = None /\ stakes_bb h = None /\
     game h = None /\ limit_type h = None) /\
  re_search RE_LIMIT (lit "NL Hold'em (0,01/0,02)") = None /\
  (exists h acts,
     parse_hand dot_stakes_block = (Some h, acts) /\
     stakes_sb h = Some (decimal 0.01%Q) /\ stakes_bb h = Some (decimal 0.02%Q)).
Proof.
  split; [|split].
  - do 2 eexists. split; [vm_compute; reflexivity|]. repeat split.
  - vm_compute. reflexivity.
  - do 2 eexists. split; [vm_compute; reflexivity|]. repeat split.
Qed.

(** * Order of the actions *)

Local Close Scope string_scope.

Lemma scan_actions_concat hid : forall lines st acc acts,
  scan_actions hid lines st acc = Ok acts ->
  exists per_line : list (list action),
    acts = acc ++ List.concat per_line /\
    Forall2 (fun line la => exists st', produced hid st' line la) lines per_line.
Proof.
  induction lines as [|l lines IH]; intros st acc acts H; simpl in H.
  - inversion H; subst. exists []. simpl. rewrite app_nil_r. auto.
  - destruct (action_of hid _ l) as [a1|] eqn:H1; simpl in H; [|discriminate].
    destruct (return_of hid _ l) as [a2|] eqn:H2; simpl in H; [|discriminate].
    apply IH in H. destruct H as (pl & -> & HF).
    exists ((a1 ++ a2) :: pl). split.
    + simpl. rewrite !app_assoc. reflexivity.
    + constructor; [|exact HF].
      eexists. exists a1, a2. eauto.
Qed.

(** C9.  The actions of a parsed hand are the concatenation, line by line
    in the order of the block, of what each line contributes. *)
Theorem actions_in_line_order :
  forall (lines : list str) (h : hand) (acts : list action),
    parse_hand lines = (Some h, acts) ->
    exists per_line : list (list action),
      acts = List.concat per_line /\
      Forall2 (fun line la => exists st, produced (hand_id h) st line la)
              lines per_line.
Proof.
  intros lines h acts H. apply parse_hand_some in H.
  destruct H as (_ & _ & _ & H). apply scan_actions_concat in H.
  destruct H as (pl & -> & HF). exists pl. auto.
Qed.

Lemma actions_in_line_order_witness :
  exists (h : hand) (acts : list action) (per_line : list (list action)),
    parse_hand good_return_block = (Some h, acts) /\
    acts = List.concat per_line /\
    Forall2 (fun line la => exists st, produced (hand_id h) st line la)
            good_return_block per_line.
Proof.
  destruct (parse_hand good_return_block) as [[h|] acts] eqn:E;
    [|vm_compute in E; discriminate].
  destruct (actions_in_line_order good_return_block E) as (pl & Hc & HF).
  exists h, acts, pl. auto.
Defined.

(** * Shape of what the patterns capture *)

Module Shapes.

Local Close Scope string_scope.

Arguments rank_char : simpl never.
Arguments suit_char : simpl never.
Arguments id_char : simpl never.
Arguments num_char : simpl never.
Arguments is_space : simpl never.
Arguments is_newline : simpl never.
Arguments is_sep : simpl never.
Arguments any : simpl never.
Arguments ci : simpl never.

Lemma groupless_env : forall r pos c rest e e',
  groupless r = true -> denote r pos c rest e e' -> e' = e.
Proof.
  induction r; intros pos c rest e e' Hg Hd; simpl in Hg, Hd;
    try (apply andb_true_iff in Hg; destruct Hg as [Hg1 Hg2]).
  - tauto.
  - tauto.
  - tauto.
  - destruct Hd as (x & _ & _ & ->). reflexivity.
  - destruct Hd as (c1 & c2 & e1 & _ & Ha & Hb).
    apply IHr1 in Ha; auto. apply IHr2 in Hb; auto. congruence.
  - destruct Hd as [Hd|Hd]; eauto.
  - destruct Hd as [Hd|[_ ->]]; eauto.
  - tauto.
  - tauto.
  - discriminate.
Qed.

Lemma denote_seq a b pos c rest e e' :
  denote (Seq a b) pos c rest e e' ->
  exists c1 c2 e1, c = c1 ++ c2 /\ denote a pos c1 (c2 ++ rest) e e1 /\
                   denote b (pos + List.length c1) c2 rest e1 e'.
Proof. exact (fun H => H). Qed.

Lemma denote_group n a pos c rest e e' :
  denote (Group n a) pos c rest e e' ->
  exists e1, denote a pos c rest e e1 /\ e' = (n, c) :: e1.
Proof. exact (fun H => H). Qed.

(** Split the head of a sequence whose first item has no group. *)
Ltac peel H :=
  let c1 := fresh "c" in
  let e1 := fresh "e" in
  let Ha := fresh "Ha" in
  apply denote_seq in H;
  destruct H as (c1 & ?c & e1 & -> & Ha & H);
  apply groupless_env in Ha; [subst e1 | reflexivity].

(** A final newline after the match is never needed by a pattern. *)
Lemma denote_drop_final_newline : forall r pos c u x e e',
  is_newline x = true ->
  denote r pos c (u ++ [x]) e e' -> denote r pos c u e e'.
Proof.
  induction r; intros pos c u x e e' Hx Hd; simpl in Hd |- *; auto.
  - destruct Hd as (-> & Hrest & ->). repeat split; auto.
    left. destruct Hrest as [Hrest|(y & Hrest & _)].
    + destruct u; discriminate.
    + destruct u as [|z u]; [reflexivity|].
      destruct u; discriminate.
  - destruct Hd as (c1 & c2 & e1 & -> & Ha & Hb).
    exists c1, c2, e1. repeat split; eauto.
    rewrite app_assoc in Ha. eauto.
  - destruct Hd as [Hd|Hd]; eauto.
  - destruct Hd as [Hd|Hd]; eauto.
  - destruct Hd as (e1 & Hd & ->). eauto.
Qed.

(** Rank and suit letters are neither blanks nor the bar. *)
Lemma rank_not_sep c : rank_char c = true -> is_sep c = false.
Proof.
  destruct c as [[] [] [] [] [] [] [] []]; vm_compute; congruence.
Qed.

Lemma suit_not_sep c : suit_char c = true -> is_sep c = false.
Proof.
  destruct c as [[] [] [] [] [] [] [] []]; vm_compute; congruence.
Qed.

Lemma space_is_sep c : is_space c = true -> is_sep c = true.
Proof. unfold is_sep. intros ->. reflexivity. Qed.

Lemma count_skip_blanks w : forall inside rest,
  forallb is_space w = true ->
  count_tokens inside (w ++ rest) =
  match w with
  | [] => count_tokens inside rest
  | _ => count_tokens false rest
  end.
Proof.
  induction w as [|x w IH]; intros inside rest Hw; simpl in *; [reflexivity|].
  apply andb_true_iff in Hw. destruct Hw as [Hx Hw].
  rewrite (space_is_sep _ Hx). rewrite IH by exact Hw.
  destruct w; reflexivity.
Qed.

Lemma count_tokens_bar a : forall inside b,
  count_tokens inside (a ++ "|"%char :: b) =
  count_tokens inside a + count_tokens false b.
Proof.
  induction a as [|x a IH]; intros inside b; simpl; [reflexivity|].
  destruct (is_sep x); rewrite IH; lia.
Qed.

Lemma card_count_join : forall parts,
  card_count (join (lit "|") parts) = list_sum (map card_count parts).
Proof.
  unfold card_count.
  induction parts as [|p [|q parts] IH].
  - reflexivity.
  - simpl. lia.
  - change (join (lit "|") (p :: q :: parts))
      with (p ++ "|"%char :: join (lit "|") (q :: parts)).
    rewrite count_tokens_bar, IH. reflexivity.
Qed.

(** What the card pattern consumes counts for one card. *)
Lemma card_shape pos c rest e e' :
  denote card pos c rest e e' ->
  exists r s, c = [r; s] /\ rank_char r = true /\ suit_char s = true.
Proof.
  intros H. simpl in H.
  destruct H as (c1 & c2 & e1 & -> & (r & -> & Hr & _) & (s & -> & Hs & _)).
  exists r, s. auto.
Qed.

Lemma blanks_shape pos c rest e e' :
  denote (Plus is_space) pos c rest e e' ->
  c <> [] /\ forallb is_space c = true.
Proof.
  intros H. simpl in H.
  destruct H as (c1 & c2 & e1 & -> & (x & -> & Hx & _) & (Hw & _)).
  split; [discriminate|]. simpl. rewrite Hx, Hw. reflexivity.
Qed.

Lemma flop_capture line m :
  re_search RE_FLOP line = Some m -> part_ok 3 (group m "flop").
Proof.
  intros H. apply search_sound in H. destruct H as (pre & c & rest & _ & H).
  unfold RE_FLOP in H. do 8 peel H.
  apply denote_seq in H. destruct H as (t & after & eg & -> & Hg & H).
  apply groupless_env in H; [subst eg|reflexivity].
  apply denote_group in Hg. destruct Hg as (eb & Hb & ->).
  apply denote_seq in Hb. destruct Hb as (k1 & t1 & e2 & -> & Hk1 & Hb).
  apply denote_seq in Hb. destruct Hb as (w1 & t2 & e3 & -> & Hw1 & Hb).
  apply denote_seq in Hb. destruct Hb as (k2 & t3 & e4 & -> & Hk2 & Hb).
  apply denote_seq in Hb. destruct Hb as (w2 & k3 & e5 & -> & Hw2 & Hk3).
  apply card_shape in Hk1, Hk2, Hk3.
  destruct Hk1 as (r1 & s1 & -> & Hr1 & Hs1).
  destruct Hk2 as (r2 & s2 & -> & Hr2 & Hs2).
  destruct Hk3 as (r3 & s3 & -> & Hr3 & Hs3).
  apply blanks_shape in Hw1, Hw2.
  destruct Hw1 as [Hn1 Hw1]. destruct Hw2 as [Hn2 Hw2].
  exists r1, (s1 :: w1 ++ [r2; s2] ++ w2 ++ [r3; s3]).
  split; [reflexivity|]. unfold card_count.
  simpl. rewrite (rank_not_sep _ Hr1), (suit_not_sep _ Hs1).
  rewrite count_skip_blanks by exact Hw1.
  destruct w1 as [|x1 w1]; [congruence|].
  simpl. rewrite (rank_not_sep _ Hr2), (suit_not_sep _ Hs2).
  rewrite count_skip_blanks by exact Hw2.
  destruct w2 as [|x2 w2]; [congruence|].
  simpl. rewrite (rank_not_sep _ Hr3), (suit_not_sep _ Hs3). reflexivity.
Qed.

Lemma one_card_capture r name line m :
  (r = RE_TURN /\ name = "turn"%string) \/
  (r = RE_RIVER /\ name = "river"%string) ->
  re_search r line = Some m -> part_ok 1 (group m name).
Proof.
  intros Hr H. apply search_sound in H.
  destruct H as (pre & c & rest & _ & H).
  assert (Hshape : exists t e0 pos rest', group m name = Some t /\
                                         denote card pos t rest' e0 e0).
  { destruct Hr as [[-> ->]|[-> ->]].
    - unfold RE_TURN in H. do 8 peel H.
      apply denote_seq in H. destruct H as (t & after & eg & -> & Hg & H).
      apply groupless_env in H; [subst eg|reflexivity].
      apply denote_group in Hg. destruct Hg as (eb & Hb & ->).
      assert (eb = []) as -> by (eapply groupless_env; [|exact Hb]; reflexivity).
      exists t, []. do 2 eexists. split; [reflexivity|exact Hb].
    - unfold RE_RIVER in H. do 8 peel H.
      apply denote_seq in H. destruct H as (t & after & eg & -> & Hg & H).
      apply groupless_env in H; [subst eg|reflexivity].
      apply denote_group in Hg. destruct Hg as (eb & Hb & ->).
      assert (eb = []) as -> by (eapply groupless_env; [|exact Hb]; reflexivity).
      exists t, []. do 2 eexists. split; [reflexivity|exact Hb]. }
  destruct Hshape as (t & e0 & pos & rest' & Hgrp & Hc).
  apply card_shape in Hc. destruct Hc as (k & s & -> & Hk & Hs).
  exists k, [s]. split; [exact Hgrp|].
  unfold card_count. simpl.
  rewrite (rank_not_sep _ Hk), (suit_not_sep _ Hs). reflexivity.
Qed.

End Shapes.

Import Shapes.

(** * Cards on the board *)

Lemma scan_board_components : forall lines f t r,
  scan_board lines f t r =
  (last_found RE_FLOP "flop" lines f, last_found RE_TURN "turn" lines t,
   last_found RE_RIVER "river" lines r).
Proof.
  induction lines as [|l lines IH]; intros f t r; simpl; [reflexivity|].
  apply IH.
Qed.

Lemma last_found_spec r name n :
  (forall line m, re_search r line = Some m -> part_ok n (group m name)) ->
  forall lines old,
    if has_line r lines then part_ok n (last_found r name lines old)
    else last_found r name lines old = old.
Proof.
  intros Hcap. induction lines as [|l lines IH]; intros old; simpl;
    [reflexivity|].
  specialize (IH (found r name l old)). unfold found in *.
  destruct (re_search r l) as [m|] eqn:Hs; simpl.
  - destruct (has_line r lines); [exact IH|].
    rewrite IH. eapply Hcap. exact Hs.
  - exact IH.
Qed.

Lemma truthy_part_sum n (b : bool) o ps :
  (if b then part_ok n o else o = Some []) ->
  list_sum (map card_count (truthy_parts (o :: ps))) =
  (if b then n else 0) + list_sum (map card_count (truthy_parts ps)).
Proof.
  destruct b; intros H.
  - destruct H as (c & s & -> & Hn). simpl. simpl in Hn. rewrite Hn. reflexivity.
  - subst o. reflexivity.
Qed.

Lemma board_of_count lines :
  card_count (board_of lines) =
  (if has_line RE_FLOP lines then 3 else 0) +
  (if has_line RE_TURN lines then 1 else 0) +
  (if has_line RE_RIVER lines then 1 else 0).
Proof.
  unfold board_of. rewrite scan_board_components, card_count_join.
  rewrite (truthy_part_sum 3 (has_line RE_FLOP lines)).
  2: { apply last_found_spec. apply flop_capture. }
  rewrite (truthy_part_sum 1 (has_line RE_TURN lines)).
  2: { apply last_found_spec. intros line m.
       apply one_card_capture. left. auto. }
  rewrite (truthy_part_sum 1 (has_line RE_RIVER lines)).
  2: { apply last_found_spec. intros line m.
       apply one_card_capture. right. auto. }
  simpl. lia.
Qed.

(** C4, as stated, fails: a block with a turn line and no flop line is
    parsed into a hand whose board holds one card. *)
Lemma board_cardinality_counterexample :
  ~ (forall lines h acts,
       parse_hand lines = (Some h, acts) ->
       In (card_count (board h)) [0; 3; 4; 5]).
Proof.
  intros H.
  destruct (parse_hand turn_only_block) as [[h|] acts] eqn:E;
    [|vm_compute in E; discriminate].
  specialize (H turn_only_block h acts E).
  vm_compute in E. inversion E; subst. vm_compute in H.
  repeat (destruct H as [H|H]; [discriminate|]). exact H.
Qed.

(** C4, amended.  The board of a parsed hand holds three cards if some
    line of the block is a flop line, plus one if some line is a turn line,
    plus one if some line is a river line: never more than five, 3, 4 or 5
    with a flop line, and 0, 1 or 2 without one. *)
Theorem board_card_count :
  forall (lines : list str) (h : hand) (acts : list action),
    parse_hand lines = (Some h, acts) ->
    card_count (board h) =
      (if has_line RE_FLOP lines then 3 else 0) +
      (if has_line RE_TURN lines then 1 else 0) +
      (if has_line RE_RIVER lines then 1 else 0) /\
    card_count (board h) <= 5 /\
    (has_line RE_FLOP lines = true -> In (card_count (board h)) [3; 4; 5]) /\
    (has_line RE_FLOP lines = false -> In (card_count (board h)) [0; 1; 2]) /\
    (has_line RE_TURN lines = false -> has_line RE_RIVER lines = false ->
     In (card_count (board h)) [0; 3]).
Proof.
  intros lines h acts H. apply parse_hand_some in H.
  destruct H as (_ & _ & Hb & _). rewrite Hb, board_of_count.
  destruct (has_line RE_FLOP lines), (has_line RE_TURN lines),
    (has_line RE_RIVER lines); simpl; repeat split; try lia;
    intros; try discriminate; auto 6.
Qed.

Lemma board_card_count_witness :
  exists h acts,
    parse_hand full_board_block = (Some h, acts) /\
    card_count (board h) = 5 /\
    In (card_count (board h)) [3; 4; 5].
Proof.
  destruct (parse_hand full_board_block) as [[h|] acts] eqn:E;
    [|vm_compute in E; discriminate].
  destruct (board_card_count full_board_block E) as (Hn & _ & Hf & _).
  exists h, acts. split; [reflexivity|]. split.
  - rewrite Hn. vm_compute. reflexivity.
  - apply Hf. vm_compute. reflexivity.
Defined.

(** The boards of the sample blocks. *)
Lemma sample_boards :
  board_of turn_only_block = lit "Td" /\
  board_of turn_river_block = lit "Td|2c" /\
  board_of full_board_block = lit "Ah Kd 7s|Td|2c" /\
  card_count (board_of turn_river_block) = 2.
Proof. repeat split; vm_compute; reflexivity. Qed.

(** * The hand segmenter *)

Module Segmenter.

Lemma rstrip_nl_keep u y :
  is_newline y = false -> rstrip_nl (u ++ [y]) = u ++ [y].
Proof.
  intros Hy. unfold rstrip_nl. rewrite rev_app_distr. simpl. rewrite Hy.
  simpl. rewrite rev_involutive. reflexivity.
Qed.

Lemma rstrip_nl_drop s x :
  is_newline x = true -> rstrip_nl (s ++ [x]) = rstrip_nl s.
Proof.
  intros Hx. unfold rstrip_nl. rewrite rev_app_distr. simpl. rewrite Hx.
  reflexivity.
Qed.

Lemma id_char_not_newline c : id_char c = true -> is_newline c = false.
Proof.
  destruct c as [[] [] [] [] [] [] [] []]; vm_compute; congruence.
Qed.

Lemma any_not_newline c : any c = true -> is_newline c = false.
Proof. unfold any. destruct (is_newline c); simpl; congruence. Qed.

Lemma last_not_newline : forall s,
  s <> [] -> forallb (fun c => negb (is_newline c)) s = true ->
  exists u y, s = u ++ [y] /\ is_newline y = false.
Proof.
  intros s Hs Hall. destruct (exists_last Hs) as (u & y & ->).
  exists u, y. split; [reflexivity|].
  rewrite forallb_app in Hall. apply andb_true_iff in Hall.
  destruct Hall as [_ Hy]. simpl in Hy.
  destruct (is_newline y); [discriminate|reflexivity].
Qed.

(** What a header match consumes ends with a character that is not a
    newline, and at most one newline follows it. *)
Lemma header_consumed c rest m :
  denote RE_HAND_HEADER 0 c rest [] m ->
  (exists u y, c = u ++ [y] /\ is_newline y = false) /\
  (rest = [] \/ exists x, rest = [x] /\ is_newline x = true).
Proof.
  intros H. unfold RE_HAND_HEADER in H. do 6 peel H.
  apply denote_seq in H. destruct H as (cid & after & eg & -> & Hg & H).
  apply denote_group in Hg. destruct Hg as (eb & Hb & ->).
  simpl in Hb.
  destruct Hb as (k1 & k2 & e1 & -> & (x & -> & Hx & _) & (Hxs & _)).
  simpl in H.
  destruct H as (dots & nothing & e2 & -> & (Hdots & _) & (-> & Hrest & _)).
  split; [|exact Hrest].
  destruct (@last_not_newline (([x] ++ k2) ++ dots ++ [])) as (u & y & Hu & Hy).
  - discriminate.
  - rewrite app_nil_r, forallb_app. simpl.
    rewrite (id_char_not_newline _ Hx). simpl.
    apply andb_true_iff. split.
    + apply forallb_forall. intros z Hz.
      rewrite forallb_forall in Hxs.
      rewrite (id_char_not_newline _ (Hxs z Hz)). reflexivity.
    + apply forallb_forall. intros z Hz.
      rewrite forallb_forall in Hdots.
      rewrite (any_not_newline _ (Hdots z Hz)). reflexivity.
  - rewrite Hu. eexists (_ ++ u), y. split; [|exact Hy].
    rewrite !app_assoc. reflexivity.
Qed.

(** A header line is still a header once its newlines are stripped. *)
Lemma header_strip l : is_header l = true -> is_header (rstrip_nl l) = true.
Proof.
  unfold is_header. intros H.
  destruct (re_match RE_HAND_HEADER l) as [m|] eqn:Hm; [|discriminate].
  apply match_sound in Hm. destruct Hm as (c & rest & -> & Hd).
  destruct (@header_consumed _ _ _ Hd) as ((u & y & -> & Hy) & Hrest).
  assert (Hc : re_match RE_HAND_HEADER (u ++ [y]) <> None).
  { destruct Hrest as [->|(x & -> & Hx)].
    - pose proof (@match_complete _ _ _ _ Hd) as Hc.
      rewrite app_nil_r in Hc. exact Hc.
    - apply (@denote_drop_final_newline _ _ _ [] x _ _ Hx) in Hd.
      pose proof (@match_complete _ _ _ _ Hd) as Hc.
      rewrite app_nil_r in Hc. exact Hc. }
  assert (Hs : rstrip_nl ((u ++ [y]) ++ rest) = u ++ [y]).
  { destruct Hrest as [->|(x & -> & Hx)].
    - rewrite app_nil_r. apply rstrip_nl_keep. exact Hy.
    - rewrite rstrip_nl_drop by exact Hx. apply rstrip_nl_keep. exact Hy. }
  rewrite Hs. destruct (re_match RE_HAND_HEADER (u ++ [y])); congruence.
Qed.

Lemma split_loop_concat : forall lines current,
  List.concat (split_loop lines current) = current ++ map rstrip_nl lines.
Proof.
  induction lines as [|l lines IH]; intros current; simpl.
  - destruct current; simpl; rewrite ?app_nil_r; reflexivity.
  - destruct (is_header l).
    + destruct current as [|x current].
      * simpl. rewrite IH. reflexivity.
      * simpl nonempty. cbv iota. simpl List.concat. rewrite IH.
        simpl. reflexivity.
    + rewrite IH, <- app_assoc. reflexivity.
Qed.

(** The first block extends the accumulator; the later ones start with a
    header. *)
Lemma split_loop_blocks : forall lines current,
  match split_loop lines current with
  | [] => current = [] /\ lines = []
  | b0 :: bs =>
      (exists tail, b0 = current ++ tail /\
                    (current = [] ->
                     exists l rest, lines = l :: rest /\
                                    exists t, tail = rstrip_nl l :: t)) /\
      Forall starts_with_header bs
  end.
Proof.
  induction lines as [|l lines IH]; intros current; simpl.
  - destruct current as [|x current]; simpl; [auto|].
    split; [|constructor]. exists []. rewrite app_nil_r.
    split; [reflexivity|discriminate].
  - destruct (is_header l) eqn:Hh.
    + destruct current as [|x current]; cbn [nonempty app].
      * specialize (IH [rstrip_nl l]).
        destruct (split_loop lines [rstrip_nl l]) as [|b0 bs].
        { destruct IH as [IH _]. discriminate. }
        destruct IH as ((tail & -> & _) & HF). split; [|exact HF].
        eexists. split; [reflexivity|]. intros _.
        exists l, lines. split; [reflexivity|]. exists tail. reflexivity.
      * specialize (IH [rstrip_nl l]).
        destruct (split_loop lines [rstrip_nl l]) as [|b0 bs].
        { destruct IH as [IH _]. discriminate. }
        destruct IH as ((tail & -> & _) & HF). split.
        -- exists []. rewrite app_nil_r. split; [reflexivity|discriminate].
        -- constructor; [|exact HF].
           exists (rstrip_nl l), tail. split; [reflexivity|].
           apply header_strip. exact Hh.
    + specialize (IH (current ++ [rstrip_nl l])).
      destruct (split_loop lines (current ++ [rstrip_nl l])) as [|b0 bs].
      { destruct IH as [IH _]. destruct current; discriminate. }
      destruct IH as ((tail & -> & _) & HF). split; [|exact HF].
      exists (rstrip_nl l :: tail). rewrite <- app_assoc. split; [reflexivity|].
      intros _. eauto.
Qed.

Lemma split_loop_nonempty : forall lines current b,
  In b (split_loop lines current) -> b <> [].
Proof.
  induction lines as [|l lines IH]; intros current b Hin; simpl in Hin.
  - destruct current; simpl in Hin; [contradiction|].
    destruct Hin as [<-|[]]. discriminate.
  - destruct (is_header l).
    + destruct current as [|x current]; simpl in Hin.
      * eapply IH. exact Hin.
      * destruct Hin as [<-|Hin]; [discriminate|]. eapply IH. exact Hin.
    + eapply IH. exact Hin.
Qed.

(** Lines that are not headers only grow the accumulator. *)
Lemma split_loop_fragment : forall pre rest current,
  Forall (fun l => is_header l = false) pre ->
  split_loop (pre ++ rest) current =
  split_loop rest (current ++ map rstrip_nl pre).
Proof.
  induction pre as [|l pre IH]; intros rest current Hpre; simpl.
  - rewrite app_nil_r. reflexivity.
  - inversion Hpre; subst. rewrite H1. rewrite IH by assumption.
    rewrite <- app_assoc. reflexivity.
Qed.

Lemma split_loop_flush rest current :
  current <> [] ->
  (rest = [] \/ exists l r, rest = l :: r /\ is_header l = true) ->
  split_loop rest current = current :: split_loop rest [].
Proof.
  intros Hc [->|(l & r & -> & Hl)]; simpl.
  - destruct current; [congruence|reflexivity].
  - rewrite Hl. destruct current; [congruence|reflexivity].
Qed.

Lemma rstrip_nl_text s :
  forallb (fun c => negb (is_newline c)) s = true -> rstrip_nl s = s.
Proof.
  intros Hs. destruct s as [|c s]; [reflexivity|].
  destruct (@last_not_newline (c :: s)) as (u & y & -> & Hy);
    [discriminate|exact Hs|].
  apply rstrip_nl_keep. exact Hy.
Qed.

(** On text without newline, a pattern matches as well when a final
    newline is added after it. *)
Lemma denote_add_final_newline : forall r pos c u x e e',
  is_newline x = true ->
  forallb (fun c => negb (is_newline c)) (c ++ u) = true ->
  denote r pos c u e e' -> denote r pos c (u ++ [x]) e e'.
Proof.
  induction r; intros pos c u x e e' Hx Hall Hd; simpl in Hd |- *; auto.
  - destruct Hd as (-> & Hrest & ->). repeat split; auto.
    destruct Hrest as [->|(y & -> & Hy)].
    + right. exists x. auto.
    + simpl in Hall. rewrite Hy in Hall. discriminate.
  - destruct Hd as (c1 & c2 & e1 & -> & Ha & Hb).
    exists c1, c2, e1. repeat split; auto.
    + rewrite app_assoc. apply IHr1; auto.
      rewrite app_assoc. exact Hall.
    + apply IHr2; auto.
      rewrite <- app_assoc, forallb_app in Hall.
      apply andb_true_iff in Hall. tauto.
  - destruct Hd as [Hd|Hd]; eauto.
  - destruct Hd as [Hd|Hd]; eauto.
  - destruct Hd as (e1 & Hd & ->). eauto.
Qed.

(** On a text line the segmenter and [parse_hand], which sees the line
    without its newline, agree on what a header is. *)
Lemma header_unstrip l :
  text_line l -> is_header (rstrip_nl l) = true -> is_header l = true.
Proof.
  intros (s & Hs & [->|(x & -> & Hx)]).
  - rewrite rstrip_nl_text by exact Hs. auto.
  - rewrite rstrip_nl_drop, rstrip_nl_text by assumption.
    unfold is_header. intros H.
    destruct (re_match RE_HAND_HEADER s) as [m|] eqn:Hm; [|discriminate].
    apply match_sound in Hm. destruct Hm as (c & rest & -> & Hd).
    apply (@denote_add_final_newline _ _ _ _ x _ _ Hx Hs) in Hd.
    pose proof (@match_complete _ _ _ _ Hd) as Hc.
    rewrite <- app_assoc.
    destruct (re_match RE_HAND_HEADER (c ++ rest ++ [x])); congruence.
Qed.

End Segmenter.

Import Segmenter.

(** A fragment of text lines none of which is a header is rejected by
    [parse_hand]. *)
Lemma fragment_rejected pre :
  Forall text_line pre ->
  Forall (fun l => is_header l = false) pre ->
  parse_hand (map rstrip_nl pre) = (None, []).
Proof.
  intros Ht Hh. apply parse_hand_body_no_id, find_hand_id_no_header.
  intros l' Hin. apply in_map_iff in Hin. destruct Hin as (l & <- & Hin).
  rewrite Forall_forall in Ht, Hh.
  destruct (is_header (rstrip_nl l)) eqn:E; [|reflexivity].
  apply header_unstrip in E; [|apply Ht; exact Hin].
  rewrite (Hh l Hin) in E. discriminate.
Qed.

(** C6, as stated, fails: on a file that starts in the middle of a hand
    the first block yielded is the leading fragment, which does not begin
    with a header line. *)
Lemma leading_fragment_counterexample :
  ~ (forall lines b,
       In b (split_into_hands lines) -> starts_with_header b).
Proof.
  intros H.
  destruct (H mid_hand_file
              [lit "Villain: folds"; lit "Hero collected 0.12 from pot"])
    as (l & rest & Heq & Hl).
  - vm_compute. left. reflexivity.
  - inversion Heq; subst. vm_compute in Hl. discriminate.
Qed.

(** C6, amended.  The segmenter discards no line: the blocks it yields,
    put end to end, are the input lines without their newlines.  No block
    is empty, every block after the first begins with a header line, and
    the first block begins with the first input line, header or not; so a
    leading fragment without header is yielded as the first block, followed
    by the blocks of the rest of the input.  When its lines are text lines,
    that first block is a block on which [parse_hand] fails. *)
Theorem split_into_hands_blocks :
  forall (lines : list str),
    List.concat (split_into_hands lines) = map rstrip_nl lines /\
    (forall b, In b (split_into_hands lines) -> b <> []) /\
    (forall b0 bs, split_into_hands lines = b0 :: bs ->
       Forall starts_with_header bs /\
       exists l rest tail, lines = l :: rest /\ b0 = rstrip_nl l :: tail) /\
    (forall pre rest,
       lines = pre ++ rest -> pre <> [] ->
       Forall (fun l => is_header l = false) pre ->
       (rest = [] \/ exists l r, rest = l :: r /\ is_header l = true) ->
       split_into_hands lines = map rstrip_nl pre :: split_into_hands rest /\
       (Forall text_line pre -> parse_hand (map rstrip_nl pre) = (None, []))).
Proof.
  intros lines. unfold split_into_hands. split; [|split; [|split]].
  - apply split_loop_concat.
  - intros b. apply split_loop_nonempty.
  - intros b0 bs H.
    pose proof (split_loop_blocks lines []) as Hb. rewrite H in Hb.
    destruct Hb as ((tail & -> & Hl) & HF). split; [exact HF|].
    destruct (Hl eq_refl) as (l & rest & -> & t & ->).
    exists l, rest, t. split; reflexivity.
  - intros pre rest -> Hne Hpre Hrest. split.
    + rewrite split_loop_fragment by exact Hpre. simpl.
      apply split_loop_flush; [|exact Hrest].
      destruct pre; [congruence|discriminate].
    + intros Ht. apply fragment_rejected; assumption.
Qed.

Lemma split_into_hands_blocks_witness :
  split_into_hands mid_hand_file =
  [ [lit "Villain: folds"; lit "Hero collected 0.12 from pot"];
    [lit "Hand #2"; lit "Hero: checks"] ] /\
  Forall starts_with_header [[lit "Hand #2"; lit "Hero: checks"]] /\
  parse_hand [lit "Villain: folds"; lit "Hero collected 0.12 from pot"] =
  (None, []).
Proof.
  destruct (split_into_hands_blocks mid_hand_file) as (_ & _ & Hb & Hf).
  destruct (Hf (firstn 2 mid_hand_file) (skipn 2 mid_hand_file)) as [E Hp].
  - reflexivity.
  - discriminate.
  - repeat constructor.
  - right. do 2 eexists. split; [reflexivity|]. vm_compute. reflexivity.
  - split; [|split].
    + rewrite E. vm_compute. reflexivity.
    + refine (proj1 (Hb _ _ _)). rewrite E. vm_compute. reflexivity.
    + apply Hp. repeat constructor.
      * eexists. split; [|right; exists newline; split; reflexivity].
        reflexivity.
      * eexists. split; [|right; exists newline; split; reflexivity].
        reflexivity.
Defined.

(** * Further properties of [parse_hand] *)

(** The components of a hand that [parse_hand] returns. *)
Lemma parse_hand_fields lines h acts :
  parse_hand lines = (Some h, acts) ->
  exists li seats btn pot rk w,
    find_limit lines = Ok li /\
    find_seats lines [] = Ok seats /\
    find_button lines = Ok btn /\
    scan_summary lines None None [] = Ok (pot, rk, w) /\
    scan_actions (find_hand_id lines) lines preflop [] = Ok acts /\
    game h = option_map li_game li /\
    limit_type h = option_map li_limit li /\
    stakes_sb h = match li with Some i => li_sb i | None => None end /\
    stakes_bb h = match li with Some i => li_bb i | None => None end /\
    currency h = option_map li_cur li /\
    players h = count seats /\ table_size h = count seats /\
    btn_seat h = btn /\ pot_total h = pot /\ rake h = rk /\
    winner_json h = w /\ hand_id h = find_hand_id lines /\
    site h = lit "pokerok" /\ table_name h = None /\ parse_warnings h = [].
Proof.
  unfold parse_hand, parse_hand_body. intros H.
  destruct (find_limit lines) as [li|]; simpl in H; [|discriminate].
  destruct (find_seats lines []) as [seats|]; simpl in H; [|discriminate].
  destruct (find_button lines) as [btn|]; simpl in H; [|discriminate].
  destruct (scan_actions (find_hand_id lines) lines preflop []) as [a|];
    simpl in H; [|discriminate].
  destruct (scan_summary lines None None []) as [[[pot rk] w]|];
    simpl in H; [|discriminate].
  destruct (find_hand_id lines) as [[|c s]|] eqn:Hid; try discriminate.
  inversion H; subst; simpl.
  exists li, seats, btn, pot, rk, w. repeat split; reflexivity.
Qed.


(** ** Lines that nothing recognises *)

Lemma search_none_match_none r line :
  re_search r line = None -> re_match r line = None.
Proof.
  unfold re_search, re_match. destruct line; simpl;
    destruct (run r accept 0 _ []); congruence.
Qed.

Lemma finds_false r line : finds r line = false -> re_search r line = None.
Proof. unfold finds. destruct (re_search r line); congruence. Qed.

Lemma inert_pattern x r :
  inert x = true -> In r all_patterns ->
  re_search r x = None /\ re_match r x = None.
Proof.
  unfold inert. intros H Hin. apply andb_true_iff in H. destruct H as [H _].
  rewrite forallb_forall in H. specialize (H r Hin).
  apply negb_true_iff, finds_false in H.
  split; [exact H|apply search_none_match_none; exact H].
Qed.

Lemma first_marker_none x st : forall ms,
  forallb (fun m => negb (contains (fst m) x)) ms = true ->
  first_marker ms x st = st.
Proof.
  induction ms as [|[marker sname] ms IH]; simpl; intros H; [reflexivity|].
  apply andb_true_iff in H. destruct H as [Hm H].
  apply negb_true_iff in Hm. rewrite Hm. apply IH. exact H.
Qed.

Lemma inert_marker x st :
  inert x = true -> first_marker STREET_MARKERS x st = st.
Proof.
  unfold inert. intros H. apply andb_true_iff in H. destruct H as [_ H].
  apply first_marker_none. exact H.
Qed.

Section Inert.

Variable x : str.
Hypothesis Hx : inert x = true.

Ltac no_match r :=
  let H := fresh "H" in
  assert (H : re_search r x = None /\ re_match r x = None)
    by (apply (@inert_pattern x); [exact Hx|unfold all_patterns; simpl; tauto]);
  destruct H.

Lemma find_hand_id_inert a b :
  find_hand_id (a ++ x :: b) = find_hand_id (a ++ b).
Proof.
  no_match RE_HAND_HEADER.
  induction a as [|l a IH]; simpl.
  - rewrite H0. reflexivity.
  - rewrite IH. reflexivity.
Qed.

Lemma find_limit_inert a b :
  find_limit (a ++ x :: b) = find_limit (a ++ b).
Proof.
  no_match RE_LIMIT.
  induction a as [|l a IH]; simpl.
  - rewrite H. reflexivity.
  - rewrite IH. reflexivity.
Qed.

Lemma find_seats_inert b : forall a acc,
  find_seats (a ++ x :: b) acc = find_seats (a ++ b) acc.
Proof.
  no_match RE_SEAT.
  induction a as [|l a IH]; intros acc; simpl.
  - rewrite H0. reflexivity.
  - destruct (re_match RE_SEAT l); [|apply IH].
    destruct (py_int _); simpl; [|reflexivity].
    destruct (method _); simpl; [apply IH|reflexivity].
Qed.

Lemma find_button_inert a b :
  find_button (a ++ x :: b) = find_button (a ++ b).
Proof.
  no_match RE_BUTTON.
  induction a as [|l a IH]; simpl.
  - rewrite H. reflexivity.
  - rewrite IH. reflexivity.
Qed.

Lemma scan_actions_inert hid b : forall a st acc,
  scan_actions hid (a ++ x :: b) st acc = scan_actions hid (a ++ b) st acc.
Proof.
  no_match RE_ACTION. no_match RE_RETURN.
  induction a as [|l a IH]; intros st acc.
  - cbn [app scan_actions]. rewrite (@inert_marker x st Hx).
    unfold action_of, return_of. rewrite H0, H2. cbn [bind].
    rewrite !app_nil_r. reflexivity.
  - cbn [app scan_actions].
    destruct (action_of hid _ l); cbn [bind]; [|reflexivity].
    destruct (return_of hid _ l); cbn [bind]; [|reflexivity].
    apply IH.
Qed.

Lemma scan_board_inert b : forall a f t r,
  scan_board (a ++ x :: b) f t r = scan_board (a ++ b) f t r.
Proof.
  no_match RE_FLOP. no_match RE_TURN. no_match RE_RIVER.
  induction a as [|l a IH]; intros f t r; cbn [app scan_board].
  - unfold found. rewrite H, H1, H3. reflexivity.
  - apply IH.
Qed.

Lemma scan_summary_inert b : forall a pot rk w,
  scan_summary (a ++ x :: b) pot rk w = scan_summary (a ++ b) pot rk w.
Proof.
  no_match RE_SUMMARY_POT. no_match RE_COLLECTED.
  induction a as [|l a IH]; intros pot rk w; cbn [app scan_summary].
  - rewrite H, H1. reflexivity.
  - destruct (re_search RE_SUMMARY_POT l);
      destruct (re_search RE_COLLECTED l);
      try (destruct (method _); cbn [bind]; [|reflexivity]); apply IH.
Qed.

End Inert.

(** X2.  A line that no pattern of the module finds and that contains no
    street marker has no effect: removing it from a block, wherever it
    stands, leaves the result of [parse_hand] unchanged. *)
Theorem parse_hand_ignores_inert_line :
  forall (a b : list str) (x : str),
    inert x = true -> parse_hand (a ++ x :: b) = parse_hand (a ++ b).
Proof.
  intros a b x Hx. unfold parse_hand, parse_hand_body, board_of.
  rewrite (@find_hand_id_inert x Hx), (@find_limit_inert x Hx),
    (@find_seats_inert x Hx), (@find_button_inert x Hx),
    (@scan_actions_inert x Hx), (@scan_summary_inert x Hx),
    (@scan_board_inert x Hx).
  reflexivity.
Qed.

Lemma parse_hand_ignores_inert_line_witness :
  parse_hand (firstn 14 TEST_HAND ++ lit "*** SUMMARY ***" :: skipn 15 TEST_HAND)
  = parse_hand (firstn 14 TEST_HAND ++ skipn 15 TEST_HAND).
Proof.
  apply parse_hand_ignores_inert_line. vm_compute. reflexivity.
Defined.

(** ** The identifier *)







(** ** Seats, winners and the summary *)

Lemma find_seats_length : forall lines acc v,
  find_seats lines acc = Ok v ->
  List.length v = List.length acc + count_lines (matches RE_SEAT) lines.
Proof.
  unfold count_lines, matches.
  induction lines as [|l lines IH]; intros acc v H; simpl in H |- *.
  - inversion H; subst. lia.
  - destruct (re_match RE_SEAT l) as [m|]; simpl.
    + destruct (py_int (group m "seat")); simpl in H; [|discriminate].
      destruct (method (group m "name")); simpl in H; [|discriminate].
      apply IH in H. rewrite H, length_app. simpl. lia.
    + apply IH in H. exact H.
Qed.

(** X4.  [players] and [table_size] of a returned hand are both the number
    of lines of the block that [RE_SEAT] matches, and [None], never 0, when
    there is no such line. *)
Theorem players_counts_seat_lines :
  forall (lines : list str) (h : hand) (acts : list action),
    parse_hand lines = (Some h, acts) ->
    table_size h = players h /\
    players h <> Some 0%Z /\
    players h =
      match count_lines (matches RE_SEAT) lines with
      | O => None
      | S n => Some (Z.of_nat (S n))
      end.
Proof.
  intros lines h acts H. apply parse_hand_fields in H.
  destruct H as (li & seats & btn & pot & rk & w & _ & Hs & _ & _ & _ & _ & _
                 & _ & _ & _ & Hp & Ht & _).
  apply find_seats_length in Hs. simpl in Hs. rewrite Ht, Hp, <- Hs.
  unfold count. destruct seats as [|s seats]; simpl List.length.
  - repeat split; discriminate.
  - repeat split. intros E. inversion E.
Qed.

Lemma players_counts_seat_lines_witness :
  exists h acts,
    parse_hand TEST_HAND = (Some h, acts) /\
    table_size h = players h /\ players h = Some 2%Z.
Proof.
  destruct (parse_hand TEST_HAND) as [[h|] acts] eqn:E;
    [|vm_compute in E; discriminate].
  destruct (players_counts_seat_lines TEST_HAND E) as (H1 & _ & H3).
  exists h, acts. split; [reflexivity|]. split; [exact H1|].
  rewrite H3. vm_compute. reflexivity.
Defined.

Lemma scan_summary_winners : forall lines pot rk w pot' rk' w',
  scan_summary lines pot rk w = Ok (pot', rk', w') ->
  w' = w ++ flat_map winner_of lines.
Proof.
  induction lines as [|l lines IH]; intros pot rk w pot' rk' w' H;
    simpl in H |- *.
  - inversion H; subst. rewrite app_nil_r. reflexivity.
  - unfold winner_of at 1.
    destruct (re_search RE_SUMMARY_POT l) as [ms|];
      destruct (re_search RE_COLLECTED l) as [m|];
      try (destruct (group m "player") as [p|]; simpl in H; [|discriminate]);
      apply IH in H; rewrite H; simpl; rewrite <- ?app_assoc; reflexivity.
Qed.

Lemma scan_summary_last : forall pre l post ms pot rk w pot' rk' w',
  re_search RE_SUMMARY_POT l = Some ms ->
  Forall (fun x => finds RE_SUMMARY_POT x = false) post ->
  scan_summary (pre ++ l :: post) pot rk w = Ok (pot', rk', w') ->
  pot' = to_float_safe (group ms "pot") /\
  rk' = to_float_safe (group ms "rake").
Proof.
  assert (Hpost : forall post pot rk w pot' rk' w',
            Forall (fun x => finds RE_SUMMARY_POT x = false) post ->
            scan_summary post pot rk w = Ok (pot', rk', w') ->
            pot' = pot /\ rk' = rk).
  { induction post as [|x post IH]; intros pot rk w pot' rk' w' HF H;
      simpl in H.
    - inversion H; subst. auto.
    - inversion HF as [|? ? Hx HF']; subst. unfold finds in Hx.
      destruct (re_search RE_SUMMARY_POT x); [discriminate|].
      destruct (re_search RE_COLLECTED x) as [m|];
        try (destruct (method (group m "player")); simpl in H;
             [|discriminate]);
        eapply IH; eauto. }
  induction pre as [|x pre IH]; intros l post ms pot rk w pot' rk' w' Hl HF H;
    simpl in H.
  - rewrite Hl in H.
    destruct (re_search RE_COLLECTED l) as [m|];
      try (destruct (method (group m "player")); simpl in H; [|discriminate]);
      apply Hpost in H; auto.
  - destruct (re_search RE_SUMMARY_POT x);
      destruct (re_search RE_COLLECTED x) as [m|];
      try (destruct (method (group m "player")); simpl in H; [|discriminate]);
      eapply IH; eauto.
Qed.

Lemma scan_summary_none : forall lines pot rk w pot' rk' w',
  Forall (fun x => finds RE_SUMMARY_POT x = false) lines ->
  scan_summary lines pot rk w = Ok (pot', rk', w') ->
  pot' = pot /\ rk' = rk.
Proof.
  induction lines as [|x lines IH]; intros pot rk w pot' rk' w' HF H;
    simpl in H.
  - inversion H; subst. auto.
  - inversion HF as [|? ? Hx HF']; subst. unfold finds in Hx.
    destruct (re_search RE_SUMMARY_POT x); [discriminate|].
    destruct (re_search RE_COLLECTED x) as [m|];
      try (destruct (method (group m "player")); simpl in H;
           [|discriminate]);
      eapply IH; eauto.
Qed.

(** X5.  The winners of a returned hand are the entries of the lines that
    [RE_COLLECTED] finds, one per line and in the order of the block. *)
Theorem winners_in_line_order :
  forall (lines : list str) (h : hand) (acts : list action),
    parse_hand lines = (Some h, acts) ->
    winner_json h = flat_map winner_of lines /\
    List.length (winner_json h) = count_lines (finds RE_COLLECTED) lines.
Proof.
  intros lines h acts H. apply parse_hand_fields in H.
  destruct H as (li & seats & btn & pot & rk & w & _ & _ & _ & Hs & _ & _ & _
                 & _ & _ & _ & _ & _ & _ & _ & _ & Hw & _).
  apply scan_summary_winners in Hs. simpl in Hs.
  rewrite Hw, Hs. split; [reflexivity|].
  clear - lines. unfold count_lines, finds.
  induction lines as [|l lines IH]; simpl; [reflexivity|].
  rewrite length_app, IH. unfold winner_of.
  destruct (re_search RE_COLLECTED l) as [m|] eqn:E; simpl; [|reflexivity].
  destruct (@group_set RE_COLLECTED "player" l m (or_intror E) eq_refl)
    as (p & ->).
  reflexivity.
Qed.

Lemma winners_in_line_order_witness :
  exists h acts,
    parse_hand TEST_HAND = (Some h, acts) /\
    winner_json h = flat_map winner_of TEST_HAND /\
    List.length (winner_json h) = 1.
Proof.
  destruct (parse_hand TEST_HAND) as [[h|] acts] eqn:E;
    [|vm_compute in E; discriminate].
  destruct (winners_in_line_order TEST_HAND E) as (H1 & H2).
  exists h, acts. split; [reflexivity|]. split; [exact H1|].
  rewrite H2. vm_compute. reflexivity.
Defined.

(** X6.  [pot_total] and [rake] of a returned hand are read from the last
    line of the block that [RE_SUMMARY_POT] finds, and both are [None]
    when no line is found. *)
Theorem summary_from_last_line :
  forall (lines : list str) (h : hand) (acts : list action),
    parse_hand lines = (Some h, acts) ->
    (Forall (fun x => finds RE_SUMMARY_POT x = false) lines ->
     pot_total h = None /\ rake h = None) /\
    (forall pre l post ms,
       lines = pre ++ l :: post ->
       re_search RE_SUMMARY_POT l = Some ms ->
       Forall (fun x => finds RE_SUMMARY_POT x = false) post ->
       pot_total h = to_float_safe (group ms "pot") /\
       rake h = to_float_safe (group ms "rake")).
Proof.
  intros lines h acts H. apply parse_hand_fields in H.
  destruct H as (li & seats & btn & pot & rk & w & _ & _ & _ & Hs & _ & _ & _
                 & _ & _ & _ & _ & _ & _ & Hp & Hr & _).
  rewrite Hp, Hr. split.
  - intros HF. eapply scan_summary_none; eauto.
  - intros pre l post ms -> Hl HF. eapply scan_summary_last; eauto.
Qed.

Lemma summary_from_last_line_witness :
  exists h acts,
    parse_hand TEST_HAND = (Some h, acts) /\
    pot_total h = Some (decimal 0.12%Q) /\ rake h = Some (decimal 0.0%Q).
Proof.
  destruct (parse_hand TEST_HAND) as [[h|] acts] eqn:E;
    [|vm_compute in E; discriminate].
  destruct (summary_from_last_line TEST_HAND E) as (_ & H2).
  destruct (re_search RE_SUMMARY_POT (lit "Total pot 0.12 | Rake 0.00"))
    as [ms|] eqn:Em; [|vm_compute in Em; discriminate].
  destruct (H2 (firstn 15 TEST_HAND) (lit "Total pot 0.12 | Rake 0.00") [] ms
              eq_refl Em (Forall_nil _)) as [Hp Hr].
  exists h, acts. split; [reflexivity|].
  vm_compute in Em. inversion Em; subst ms. split; [exact Hp|exact Hr].
Defined.

(** ** Characters *)

Lemma in_all_ascii c : In c all_ascii.
Proof.
  unfold all_ascii. rewrite <- (ascii_nat_embedding c).
  apply in_map. apply in_seq. pose proof (nat_ascii_bounded c). lia.
Qed.

Lemma forall_ascii (P : ascii -> bool) :
  forallb P all_ascii = true -> forall c, P c = true.
Proof.
  intros H c. rewrite forallb_forall in H. apply H. apply in_all_ascii.
Qed.

Lemma ascii_eqb_eq a b : ascii_eqb a b = true -> a = b.
Proof.
  unfold ascii_eqb, code. intros H. apply Nat.eqb_eq in H.
  rewrite <- (ascii_nat_embedding a), <- (ascii_nat_embedding b), H.
  reflexivity.
Qed.

Lemma ascii_eqb_refl a : ascii_eqb a a = true.
Proof. unfold ascii_eqb. apply Nat.eqb_refl. Qed.

Lemma str_eqb_eq : forall a b, str_eqb a b = true <-> a = b.
Proof.
  induction a as [|x a IH]; destruct b as [|y b]; simpl; split; intros H;
    try discriminate; auto.
  - apply andb_true_iff in H. destruct H as [Hx H].
    apply ascii_eqb_eq in Hx. apply IH in H. congruence.
  - inversion H; subst. rewrite ascii_eqb_refl. apply IH. reflexivity.
Qed.

Lemma ci_lower c x : ci c x = true -> lower x = lower c.
Proof. unfold ci. apply ascii_eqb_eq. Qed.

Lemma space_lower x : is_space x = true -> lower x = x.
Proof.
  intros H.
  pose proof (forall_ascii (fun x => implb (is_space x)
                                           (ascii_eqb (lower x) x))
                           eq_refl x) as Hc.
  simpl in Hc. rewrite H in Hc. apply ascii_eqb_eq. exact Hc.
Qed.

Lemma lstrip_snoc a : forall u,
  is_space a = false -> lstrip (u ++ [a]) = lstrip u ++ [a].
Proof.
  intros u Ha. induction u as [|x u IH]; simpl.
  - rewrite Ha. reflexivity.
  - destruct (is_space x); [exact IH|reflexivity].
Qed.

Lemma rstrip_cons a s : is_space a = false -> rstrip (a :: s) = a :: rstrip s.
Proof.
  intros Ha. unfold rstrip. simpl rev. rewrite lstrip_snoc by exact Ha.
  rewrite rev_app_distr. reflexivity.
Qed.

Lemma strip_cons a s : is_space a = false -> strip (a :: s) = a :: rstrip s.
Proof.
  intros Ha. unfold strip. simpl. rewrite Ha. apply rstrip_cons. exact Ha.
Qed.

Lemma rstrip_snoc s b : is_space b = false -> rstrip (s ++ [b]) = s ++ [b].
Proof.
  intros Hb. unfold rstrip. rewrite rev_app_distr. simpl. rewrite Hb.
  simpl. rewrite rev_involutive. reflexivity.
Qed.

Lemma str_lower_blanks ws : forallb is_space ws = true -> str_lower ws = ws.
Proof.
  induction ws as [|x ws IH]; simpl; intros H; [reflexivity|].
  apply andb_true_iff in H. destruct H as [Hx H].
  rewrite (space_lower _ Hx), IH by exact H. reflexivity.
Qed.

(** ** Literal words *)

Lemma denote_alt a b pos c rest e e' :
  denote (Alt a b) pos c rest e e' ->
  denote a pos c rest e e' \/ denote b pos c rest e e'.
Proof. exact (fun H => H). Qed.

(** Whatever a literal word consumes is that word up to case. *)
Lemma word_lower : forall w pos c rest e e',
  denote (word_of w) pos c rest e e' -> str_lower c = str_lower w.
Proof.
  induction w as [|x w IH]; intros pos c rest e e' H.
  - simpl in H. destruct H as [-> _]. reflexivity.
  - destruct w as [|y w].
    + simpl in H. destruct H as (z & -> & Hz & _). simpl.
      rewrite (ci_lower _ _ Hz). reflexivity.
    + change (word_of (x :: y :: w))
        with (Seq (Chr (ci x)) (word_of (y :: w))) in H.
      apply denote_seq in H.
      destruct H as (c1 & c2 & e1 & -> & (z & -> & Hz & _) & H).
      apply IH in H. simpl. simpl in H. rewrite H, (ci_lower _ _ Hz).
      reflexivity.
Qed.

Lemma lit_lower s pos c rest e e' :
  denote (Lit s) pos c rest e e' -> str_lower c = str_lower (lit s).
Proof. apply word_lower. Qed.

(** ** Verbs and amounts *)

Lemma verb_group_ok pos c rest e e' :
  denote (Lit "bets" <|> Lit "checks" <|> Lit "calls" <|> Lit "folds"
          <|> (Lit "raises" ;; Plus is_space ;; Lit "to")
          <|> (Lit "all" ;; Opt (Chr (ci "-")) ;; Lit "in")
          <|> (Lit "posts" ;; Star any)
          <|> Lit "straddle")%re pos c rest e e' ->
  verb_ok (strip (str_lower c)).
Proof.
  intros H. unfold verb_ok, fixed_verbs.
  apply denote_alt in H. destruct H as [H|H].
  { apply lit_lower in H. rewrite H. left. vm_compute. tauto. }
  apply denote_alt in H. destruct H as [H|H].
  { apply lit_lower in H. rewrite H. left. vm_compute. tauto. }
  apply denote_alt in H. destruct H as [H|H].
  { apply lit_lower in H. rewrite H. left. vm_compute. tauto. }
  apply denote_alt in H. destruct H as [H|H].
  { apply lit_lower in H. rewrite H. left. vm_compute. tauto. }
  apply denote_alt in H. destruct H as [H|H].
  { right. left.
    apply denote_seq in H. destruct H as (c1 & c2 & e1 & -> & H1 & H).
    apply denote_seq in H. destruct H as (ws & c3 & e2 & -> & Hw & H3).
    apply lit_lower in H1, H3. apply plus_shape in Hw.
    destruct Hw as [Hne Hws]. exists ws. repeat split; auto.
    unfold str_lower in *. rewrite !map_app, H1, H3.
    fold (str_lower ws). rewrite (str_lower_blanks _ Hws).
    change (map lower (lit "raises")) with (lit "raises").
    change (map lower (lit "to")) with (lit "to").
    replace (lit "raises" ++ ws ++ lit "to")
      with ("r"%char :: (lit "aises" ++ ws ++ [ "t"%char ]) ++ [ "o"%char ])
      by (simpl; rewrite <- !app_assoc; reflexivity).
    rewrite strip_cons by reflexivity. f_equal.
    apply rstrip_snoc. reflexivity. }
  apply denote_alt in H. destruct H as [H|H].
  { left.
    apply denote_seq in H. destruct H as (c1 & c2 & e1 & -> & H1 & H).
    apply denote_seq in H. destruct H as (d & c3 & e2 & -> & Hd & H3).
    apply lit_lower in H1, H3.
    unfold str_lower in *. rewrite !map_app, H1, H3.
    simpl in Hd. destruct Hd as [(x & -> & Hx & _)|[-> _]].
    - simpl map at 2. rewrite (ci_lower _ _ Hx). vm_compute. tauto.
    - vm_compute. tauto. }
  apply denote_alt in H. destruct H as [H|H].
  { right. right.
    apply denote_seq in H. destruct H as (c1 & c2 & e1 & -> & H1 & _).
    apply lit_lower in H1.
    unfold str_lower in *. rewrite map_app, H1.
    change (map lower (lit "posts") ++ map lower c2)
      with ("p"%char :: "o"%char :: "s"%char :: "t"%char :: "s"%char
            :: map lower c2).
    rewrite strip_cons by reflexivity.
    rewrite !rstrip_cons by reflexivity. reflexivity. }
  { apply lit_lower in H. rewrite H. left. vm_compute. tauto. }
Qed.

Lemma action_captures_verb : captures verb_token RE_ACTION.
Proof.
  unfold RE_ACTION.
  split; [exact I|].
  split; [split; [intros ? ? ? ? ? _ Hn; discriminate Hn
                 |apply groupless_captures; reflexivity]|].
  split; [exact I|].
  split; [apply groupless_captures; reflexivity|].
  split; [split; [|apply groupless_captures; reflexivity]|].
  { intros pos c rest e e' Hd _. eapply verb_group_ok. exact Hd. }
  split; [exact I|].
  split; [intros ? ? ? ? ? _ Hn; discriminate Hn
         |apply groupless_captures; reflexivity].
Qed.

Lemma verb_not_return s :
  verb_ok s -> str_eqb s (lit "return_uncalled") = false.
Proof.
  intros [H|[(ws & _ & _ & ->)|H]].
  - unfold fixed_verbs in H. simpl in H.
    repeat (destruct H as [<-|H]; [reflexivity|]). contradiction.
  - reflexivity.
  - destruct s as [|x s]; [reflexivity|].
    simpl in H. apply andb_true_iff in H. destruct H as [Hx _].
    apply ascii_eqb_eq in Hx. subst x. reflexivity.
Qed.

Lemma digits_val_nonneg s : (0 <= digits_val s)%Z.
Proof.
  unfold digits_val.
  assert (H : forall s acc, (0 <= acc)%Z ->
            (0 <= fold_left (fun a c => 10 * a + digit_val c) s acc)%Z).
  { induction s0 as [|c s0 IH]; intros acc Ha; cbn [fold_left];
      [exact Ha|].
    apply IH. unfold digit_val. lia. }
  apply H. lia.
Qed.

Lemma decimal_nonneg n d : (0 <= n)%Z -> (0 <= decimal (n # d))%Q.
Proof.
  intros H. unfold decimal. rewrite Qred_correct.
  unfold Qle. simpl. lia.
Qed.

Lemma py_float_nonneg s q : py_float s = Some q -> (0 <= q)%Q.
Proof.
  unfold py_float. destruct (span is_digit s) as [ip rest].
  destruct rest as [|c fp].
  - destruct ip; [discriminate|]. intros H. inversion H; subst.
    apply decimal_nonneg, digits_val_nonneg.
  - destruct (_ && _ && _); [|discriminate]. intros H. inversion H; subst.
    apply decimal_nonneg, digits_val_nonneg.
Qed.

Lemma to_float_safe_nonneg o q : to_float_safe o = Some q -> (0 <= q)%Q.
Proof.
  destruct o as [v|]; cbn [to_float_safe];
    [apply py_float_nonneg|discriminate].
Qed.

Lemma decimal_le q r : (q <= r)%Q -> (decimal q <= r)%Q.
Proof.
  intros H. unfold decimal. eapply Qle_trans; [|exact H].
  apply Qle_lteq. right. apply Qred_correct.
Qed.

Lemma py_neg_nonpos o q :
  py_neg (to_float_safe o) = Ok (Some q) -> (q <= 0)%Q.
Proof.
  destruct (to_float_safe o) as [x|] eqn:E; cbn [py_neg]; [|discriminate].
  apply to_float_safe_nonneg in E.
  intros H. assert (Hq : q = decimal (- x)) by congruence.
  rewrite Hq. apply decimal_le.
  destruct x as [n d]. unfold Qle in *. simpl in *. lia.
Qed.

Lemma action_of_records hid st line l :
  action_of hid st line = Ok l ->
  Forall (fun a => verb_ok (a_action a) /\ a_street a = st /\
                   match a_amount a with
                   | Some q => (0 <= q)%Q
                   | None => True
                   end) l.
Proof.
  unfold action_of. intros H.
  destruct (re_match RE_ACTION line) as [m|] eqn:E;
    [|inversion H; constructor].
  destruct (group m "player") as [p|]; cbn [method bind] in H;
    [|discriminate].
  destruct (group m "verb") as [v|] eqn:Hv; cbn [method bind] in H;
    [|discriminate].
  inversion H; subst. constructor; [|constructor]. cbn [a_action a_amount a_street].
  split; [|split; [reflexivity|]].
  - destruct (@matched RE_ACTION line m (or_introl E)) as (pos & c & rest & Hd).
    assert (Ht : verb_token "verb" v).
    { eapply denote_captures;
        [exact action_captures_verb|exact Hd| |exact Hv].
      intros n t0 H0. discriminate. }
    exact (Ht eq_refl).
  - destruct (to_float_safe (group m "amt")) as [q|] eqn:Hq; [|exact I].
    eapply to_float_safe_nonneg. exact Hq.
Qed.

Lemma return_of_records hid st line l :
  return_of hid st line = Ok l ->
  Forall (fun a => a_action a = lit "return_uncalled" /\ a_street a = st /\
                   exists q, a_amount a = Some q /\ (q <= 0)%Q) l.
Proof.
  unfold return_of. intros H.
  destruct (re_match RE_RETURN line) as [m|] eqn:E;
    [|inversion H; constructor].
  destruct (group m "player") as [p|]; cbn [method bind] in H;
    [|discriminate].
  destruct (@group_set RE_RETURN "amt" line m (or_introl E) eq_refl)
    as (t & Ht).
  assert (Hok : token_ok "amt" t).
  { eapply group_token; [left; exact E| |exact Ht].
    apply pattern_tokens. unfold all_patterns. simpl. tauto. }
  destruct Hok as (Hd & _). destruct (Hd eq_refl) as [Hne _].
  rewrite Ht in H. destruct t as [|c t]; [congruence|].
  cbv beta iota in H.
  match type of H with
  | context [py_neg ?x] => destruct (py_neg x) as [[q|]|] eqn:Hn
  end; cbn [bind] in H; try discriminate.
  - inversion H; subst. constructor; [|constructor].
    cbn [a_action a_amount a_street]. repeat split.
    exists q. split; [reflexivity|]. eapply py_neg_nonpos. exact Hn.
  - exfalso. unfold py_neg in Hn.
    destruct (to_float_safe _) in Hn; discriminate.
Qed.

(** A property of every record that the two action patterns produce holds
    of every action of a returned hand. *)
Lemma actions_forall (P : action -> Prop) lines h acts :
  (forall hid st line l, action_of hid st line = Ok l -> Forall P l) ->
  (forall hid st line l, return_of hid st line = Ok l -> Forall P l) ->
  parse_hand lines = (Some h, acts) -> Forall P acts.
Proof.
  intros Ha Hr H. apply parse_hand_some in H. destruct H as (_ & _ & _ & H).
  apply scan_actions_concat in H. destruct H as (pl & -> & HF). simpl.
  clear - Ha Hr HF. induction HF as [|line la lines pl Hp _ IH]; simpl.
  - constructor.
  - apply Forall_app. split; [|exact IH].
    destruct Hp as (st & a1 & a2 & H1 & H2 & ->).
    apply Forall_app. split; eauto.
Qed.



(** X8.  In a returned hand every [return_uncalled] record carries an
    amount, which is not positive; every other record carries no amount or
    one that is not negative. *)
Theorem amount_signs :
  forall (lines : list str) (h : hand) (acts : list action),
    parse_hand lines = (Some h, acts) -> Forall amount_sign_ok acts.
Proof.
  intros lines h acts H. eapply actions_forall; [| |exact H].
  - intros hid st line l Hl. apply action_of_records in Hl.
    eapply Forall_impl; [|exact Hl]. intros a (Hv & _ & Hq).
    unfold amount_sign_ok. rewrite (verb_not_return Hv).
    destruct (a_amount a); auto.
  - intros hid st line l Hl. apply return_of_records in Hl.
    eapply Forall_impl; [|exact Hl]. intros a (Hv & _ & q & Hq & Hle).
    unfold amount_sign_ok. rewrite Hq, Hv.
    replace (str_eqb (lit "return_uncalled") (lit "return_uncalled"))
      with true by reflexivity.
    exact Hle.
Qed.

Lemma amount_signs_witness :
  exists h acts,
    parse_hand TEST_HAND = (Some h, acts) /\ Forall amount_sign_ok acts.
Proof.
  destruct (parse_hand TEST_HAND) as [[h|] acts] eqn:E;
    [|vm_compute in E; discriminate].
  exists h, acts. split; [reflexivity|].
  exact (amount_signs TEST_HAND E).
Defined.

(** ** Streets *)

Lemma first_marker_cases line st : forall ms,
  first_marker ms line st = st \/
  exists marker, In (marker, first_marker ms line st) ms /\
                 contains marker line = true.
Proof.
  induction ms as [|[marker sname] ms IH]; simpl; [auto|].
  destruct (contains marker line) eqn:E.
  - right. exists marker. auto.
  - destruct IH as [IH|(mk & Hin & Hc)]; [auto|].
    right. exists mk. auto.
Qed.

Lemma scan_actions_streets hid all : forall lines st acc acts,
  incl lines all ->
  street_seen all st ->
  Forall (fun a => street_seen all (a_street a)) acc ->
  scan_actions hid lines st acc = Ok acts ->
  Forall (fun a => street_seen all (a_street a)) acts.
Proof.
  induction lines as [|l lines IH]; intros st acc acts Hin Hst Hacc H;
    cbn [scan_actions] in H.
  - inversion H; subst. exact Hacc.
  - assert (Hst' : street_seen all (first_marker STREET_MARKERS l st)).
    { destruct (first_marker_cases l st STREET_MARKERS) as [->|(mk & Hm & Hc)];
        [exact Hst|].
      right. exists l, mk. repeat split; auto. apply Hin. left. reflexivity. }
    destruct (action_of hid _ l) as [a1|] eqn:H1; cbn [bind] in H;
      [|discriminate].
    destruct (return_of hid _ l) as [a2|] eqn:H2; cbn [bind] in H;
      [|discriminate].
    eapply IH; [|exact Hst'| |exact H].
    + intros x Hx. apply Hin. right. exact Hx.
    + apply action_of_records in H1. apply return_of_records in H2.
      apply Forall_app. split; [apply Forall_app; split|]; auto.
      * eapply Forall_impl; [|exact H1]. intros a (_ & -> & _). exact Hst'.
      * eapply Forall_impl; [|exact H2]. intros a (_ & -> & _). exact Hst'.
Qed.

(** X9.  An action of a returned hand is tagged [preflop] or with a street
    whose marker stands on some line of the block; in a block without any
    street marker every action is tagged [preflop]. *)
Theorem streets_follow_markers :
  forall (lines : list str) (h : hand) (acts : list action),
    parse_hand lines = (Some h, acts) ->
    Forall (fun a => street_seen lines (a_street a)) acts /\
    ((forall line m, In line lines -> In m STREET_MARKERS ->
                     contains (fst m) line = false) ->
     Forall (fun a => a_street a = preflop) acts).
Proof.
  intros lines h acts H. apply parse_hand_some in H.
  destruct H as (_ & _ & _ & H).
  assert (HF : Forall (fun a => street_seen lines (a_street a)) acts).
  { eapply scan_actions_streets; [| | |exact H].
    - apply incl_refl.
    - left. reflexivity.
    - constructor. }
  split; [exact HF|]. intros Hno.
  eapply Forall_impl; [|exact HF].
  intros a [Hp|(line & mk & Hl & Hm & Hc)]; [exact Hp|].
  pose proof (Hno line (mk, a_street a) Hl Hm) as Hf. simpl in Hf.
  congruence.
Qed.

Lemma streets_follow_markers_witness :
  exists h acts,
    parse_hand good_return_block = (Some h, acts) /\
    Forall (fun a => a_street a = preflop) acts.
Proof.
  destruct (parse_hand good_return_block) as [[h|] acts] eqn:E;
    [|vm_compute in E; discriminate].
  exists h, acts. split; [reflexivity|].
  apply (proj2 (streets_follow_markers good_return_block E)).
  intros line m Hl Hm.
  repeat (destruct Hl as [<-|Hl];
          [repeat (destruct Hm as [<-|Hm]; [vm_compute; reflexivity|]);
           contradiction|]).
  contradiction.
Defined.

(** ** Limit, game and currency *)












Lemma find_limit_some : forall lines i,
  find_limit lines = Ok (Some i) ->
  exists pre l post m lim g,
    lines = pre ++ l :: post /\
    Forall (fun x => finds RE_LIMIT x = false) pre /\
    re_search RE_LIMIT l = Some m /\
    group m "limit" = Some lim /\ group m "game" = Some g /\
    li_limit i = str_upper lim /\
    li_game i = remove_char "'"%char (str_lower g) /\
    li_sb i = to_float_safe (group m "sb") /\
    li_bb i = to_float_safe (group m "bb") /\
    li_cur i = normalize_currency_symbol (group m "cur").
Proof.
  induction lines as [|l lines IH]; intros i H; simpl in H; [discriminate|].
  destruct (re_search RE_LIMIT l) as [m|] eqn:E.
  - destruct (group m "limit") as [lim|] eqn:Hl; cbn [method bind] in H;
      [|discriminate].
    destruct (group m "game") as [g|] eqn:Hg; cbn [method bind] in H;
      [|discriminate].
    inversion H; subst. exists [], l, lines, m, lim, g.
    simpl. repeat split; auto.
  - destruct (IH i H)
      as (pre & l0 & post & m & lim & g & -> & Hpre & Hrest).
    exists (l :: pre), l0, post, m, lim, g. split; [reflexivity|].
    split; [|exact Hrest].
    constructor; [|exact Hpre]. unfold finds. rewrite E. reflexivity.
Qed.




(** * Further properties of [split_into_hands] *)

Lemma split_loop_app : forall a b current,
  (b = [] \/ exists l r, b = l :: r /\ is_header l = true) ->
  split_loop (a ++ b) current = split_loop a current ++ split_loop b [].
Proof.
  induction a as [|x a IH]; intros b current Hb.
  - cbn [app split_loop]. destruct current as [|c current].
    + reflexivity.
    + rewrite split_loop_flush; [reflexivity|discriminate|exact Hb].
  - cbn [app split_loop].
    destruct (is_header x); [destruct (nonempty current)|];
      cbn [app]; rewrite IH by exact Hb; reflexivity.
Qed.

(** X11.  Segmentation composes at header lines: when the second part of
    the input is empty or begins with a header line, the blocks of the
    whole input are the blocks of the first part followed by the blocks of
    the second. *)
Theorem split_into_hands_app :
  forall a b : list str,
    (b = [] \/ exists l r, b = l :: r /\ is_header l = true) ->
    split_into_hands (a ++ b) = split_into_hands a ++ split_into_hands b.
Proof. intros a b Hb. apply split_loop_app. exact Hb. Qed.

Lemma split_into_hands_app_witness :
  split_into_hands (firstn 4 two_hands_file ++ skipn 4 two_hands_file) =
  split_into_hands (firstn 4 two_hands_file) ++
  split_into_hands (skipn 4 two_hands_file).
Proof.
  apply split_into_hands_app. right. do 2 eexists.
  split; [reflexivity|]. vm_compute. reflexivity.
Defined.

Lemma split_loop_length : forall lines current,
  current <> [] ->
  List.length (split_loop lines current) = S (count_lines is_header lines).
Proof.
  unfold count_lines.
  induction lines as [|l lines IH]; intros current Hc; cbn [split_loop filter].
  - destruct current; [congruence|reflexivity].
  - destruct (is_header l).
    + destruct current as [|c current]; [congruence|].
      cbn [nonempty List.length app]. rewrite IH by discriminate.
      reflexivity.
    + apply IH. destruct current; discriminate.
Qed.

Lemma rstrip_nl_idem s : rstrip_nl (rstrip_nl s) = rstrip_nl s.
Proof.
  unfold rstrip_nl. rewrite rev_involutive. f_equal.
  generalize (rev s). intros u. induction u as [|x u IH]; simpl; [reflexivity|].
  destruct (is_newline x) eqn:E; [exact IH|]. simpl. rewrite E. reflexivity.
Qed.

(** X12.  The number of blocks is one for the first line plus one for every
    later line that is a header; no block is produced for an empty input,
    and no line of a block ends with a newline. *)
Theorem split_into_hands_count :
  forall lines : list str,
    List.length (split_into_hands lines) =
      match lines with
      | [] => 0
      | _ :: rest => S (count_lines is_header rest)
      end /\
    (forall b l, In b (split_into_hands lines) -> In l b -> rstrip_nl l = l).
Proof.
  intros lines. split.
  - unfold split_into_hands. destruct lines as [|l rest]; [reflexivity|].
    cbn [split_loop nonempty app].
    destruct (is_header l); apply split_loop_length; discriminate.
  - intros b l Hb Hl.
    assert (Hin : In l (List.concat (split_into_hands lines))).
    { apply in_concat. exists b. auto. }
    unfold split_into_hands in Hin. rewrite split_loop_concat in Hin.
    simpl in Hin. apply in_map_iff in Hin. destruct Hin as (l0 & <- & _).
    apply rstrip_nl_idem.
Qed.

Lemma is_header_strip_text l :
  text_line l -> is_header (rstrip_nl l) = is_header l.
Proof.
  intros Ht. destruct (is_header l) eqn:E.
  - apply header_strip. exact E.
  - destruct (is_header (rstrip_nl l)) eqn:E'; [|reflexivity].
    apply header_unstrip in E'; [congruence|exact Ht].
Qed.

Lemma split_loop_stripped : forall lines current,
  Forall text_line lines ->
  split_loop (map rstrip_nl lines) current = split_loop lines current.
Proof.
  induction lines as [|l lines IH]; intros current Ht; [reflexivity|].
  inversion Ht as [|? ? Hl Ht']; subst. cbn [map split_loop].
  rewrite (is_header_strip_text Hl), rstrip_nl_idem, !IH by exact Ht'.
  reflexivity.
Qed.

(** X13.  On text lines segmentation is idempotent: putting the blocks end
    to end and segmenting again gives the same blocks. *)
Theorem split_into_hands_idempotent :
  forall lines : list str,
    Forall text_line lines ->
    split_into_hands (List.concat (split_into_hands lines)) =
    split_into_hands lines.
Proof.
  intros lines Ht. unfold split_into_hands at 2.
  rewrite split_loop_concat. simpl. apply split_loop_stripped. exact Ht.
Qed.

Lemma text_line_ln s :
  forallb (fun c => negb (is_newline c)) (lit s) = true -> text_line (ln s).
Proof.
  intros H. exists (lit s). split; [exact H|].
  right. exists newline. split; reflexivity.
Qed.

Lemma split_into_hands_idempotent_witness :
  split_into_hands (List.concat (split_into_hands two_hands_file)) =
  split_into_hands two_hands_file.
Proof.
  apply split_into_hands_idempotent.
  repeat constructor; apply text_line_ln; reflexivity.
Defined.

Lemma split_loop_headed : forall lines current,
  Forall text_line lines ->
  (current = [] \/ headed current) ->
  Forall headed (split_loop lines current).
Proof.
  induction lines as [|l lines IH]; intros current Ht Hc; cbn [split_loop].
  - destruct Hc as [->|Hc]; [constructor|].
    destruct current; [constructor|]. constructor; [exact Hc|constructor].
  - inversion Ht as [|? ? Hl Ht']; subst.
    assert (Hone : headed [rstrip_nl l]).
    { exists (rstrip_nl l), []. split; [reflexivity|constructor]. }
    destruct (is_header l) eqn:E.
    + destruct current as [|c current]; cbn [nonempty app].
      * apply IH; auto.
      * destruct Hc as [Hc|Hc]; [discriminate|].
        constructor; [exact Hc|]. apply IH; auto.
    + apply IH; [exact Ht'|]. right.
      destruct Hc as [->|(x & tl & -> & Htl)]; [exact Hone|].
      exists x, (tl ++ [rstrip_nl l]). split; [reflexivity|].
      apply Forall_app. split; [exact Htl|].
      constructor; [|constructor].
      rewrite (is_header_strip_text Hl). exact E.
Qed.

(** X14.  On text lines a block holds a header line at its head only: no
    line after the first line of a block is a header. *)
Theorem split_into_hands_single_header :
  forall lines : list str,
    Forall text_line lines -> Forall headed (split_into_hands lines).
Proof.
  intros lines Ht. apply split_loop_headed; [exact Ht|left; reflexivity].
Qed.

Lemma split_into_hands_single_header_witness :
  Forall headed (split_into_hands two_hands_file).
Proof.
  apply split_into_hands_single_header.
  repeat constructor; apply text_line_ln; reflexivity.
Defined.

(** * Further properties of [process_input] *)

Lemma process_input_pool files f :
  process_input files f = collect f (pool_results files) [] [].
Proof. reflexivity. Qed.

Lemma passes_raise_type f h e : passes f h = Raise e -> e = TypeError.
Proof. intros H. apply passes_raises in H. tauto. Qed.

Lemma collect_spec f : forall fs hs0 as0,
  collect f fs hs0 as0 =
  if existsb (raises f) (successes fs) then Raise TypeError
  else Ok (hs0 ++ map fst (filter (keeps f) (successes fs)),
           as0 ++ List.concat (map snd (filter (keeps f) (successes fs)))).
Proof.
  induction fs as [|[[h|] a] fs IH]; intros hs0 as0;
    cbn [collect successes existsb filter].
  - simpl. rewrite !app_nil_r. reflexivity.
  - destruct (passes f h) as [[|]|e] eqn:E; cbn [bind].
    + assert (Hk : keeps f (h, a) = true)
        by (unfold keeps; cbn [fst]; rewrite E; reflexivity).
      assert (Hr : raises f (h, a) = false)
        by (unfold raises; cbn [fst]; rewrite E; reflexivity).
      rewrite Hk, Hr, IH. cbn [orb].
      destruct (existsb (raises f) (successes fs)); [reflexivity|].
      cbn [map fst snd List.concat]. rewrite <- !app_assoc. reflexivity.
    + assert (Hk : keeps f (h, a) = false)
        by (unfold keeps; cbn [fst]; rewrite E; reflexivity).
      assert (Hr : raises f (h, a) = false)
        by (unfold raises; cbn [fst]; rewrite E; reflexivity).
      rewrite Hk, Hr. cbn [orb]. apply IH.
    + assert (Hr : raises f (h, a) = true)
        by (unfold raises; cbn [fst]; rewrite E; reflexivity).
      rewrite Hr, (passes_raise_type _ _ E). reflexivity.
  - apply IH.
Qed.

(** X15.  [process_input] is a filter over the parsed hands: it raises
    [TypeError] when the filter raises on some hand that [parse_hand]
    returned, and otherwise returns, in submission order, the hands that
    pass the filter, and the concatenation of their action lists. *)
Theorem process_input_is_filter :
  forall (files : list (list str)) (f : filters),
    process_input files f =
    if existsb (raises f) (successes (pool_results files))
    then Raise TypeError
    else
      let kept := filter (keeps f) (successes (pool_results files)) in
      Ok (map fst kept, List.concat (map snd kept)).
Proof.
  intros files f. rewrite process_input_pool, collect_spec. reflexivity.
Qed.

Lemma keeps_satisfies f p : keeps f p = true -> satisfies f (fst p).
Proof.
  unfold keeps, passes, satisfies, players_lt, players_gt.
  generalize (fst p). intros h.
  destruct (truthy_list (f_game f)) eqn:Hg;
    destruct (game_in (game h) (f_game f)) eqn:Hin; cbn [andb negb];
    try discriminate;
    destruct (truthy_int (f_min_players f)) eqn:Hlo;
    destruct (truthy_int (f_max_players f)) eqn:Hhi;
    destruct (players h) as [n|]; cbn [bind]; try discriminate;
    try (destruct (n <? bound (f_min_players f))%Z eqn:Elo; cbn [bind];
         try discriminate);
    try (destruct (n >? bound (f_max_players f))%Z eqn:Ehi; cbn [bind negb];
         try discriminate);
    intros _; repeat split; intros Hc; try discriminate Hc;
    try (exists n; split; [reflexivity|]);
    try (apply Z.ltb_ge in Elo; exact Elo);
    try (rewrite Z.gtb_ltb in Ehi; apply Z.ltb_ge in Ehi; exact Ehi).
Qed.

(** X16.  Every hand that [process_input] returns meets every predicate
    that is in force: its game is in the game list, its player count is
    known and not below the lower bound, and not above the upper bound. *)
Theorem returned_hands_satisfy_filters :
  forall (files : list (list str)) (f : filters) hs acts,
    process_input files f = Ok (hs, acts) -> Forall (satisfies f) hs.
Proof.
  intros files f hs acts H.
  rewrite process_input_pool, collect_spec in H.
  destruct (existsb (raises f) (successes (pool_results files)));
    [discriminate|].
  inversion H; subst. simpl. apply Forall_forall. intros h Hin.
  apply in_map_iff in Hin. destruct Hin as (p & <- & Hp).
  apply filter_In in Hp. apply keeps_satisfies. tauto.
Qed.

Lemma returned_hands_satisfy_filters_witness :
  exists hs acts,
    process_input [firstn 4 two_hands_file; TEST_HAND]
      {| f_game := None; f_min_players := Some 2%Z;
         f_max_players := Some 6%Z |} = Ok (hs, acts) /\
    Forall (satisfies {| f_game := None; f_min_players := Some 2%Z;
                         f_max_players := Some 6%Z |}) hs.
Proof.
  destruct (process_input [firstn 4 two_hands_file; TEST_HAND]
              {| f_game := None; f_min_players := Some 2%Z;
                 f_max_players := Some 6%Z |}) as [[hs acts]|] eqn:E;
    [|vm_compute in E; discriminate].
  exists hs, acts. split; [reflexivity|].
  exact (returned_hands_satisfy_filters _ _ E).
Defined.

Lemma successes_app a b : successes (a ++ b) = successes a ++ successes b.
Proof.
  induction a as [|[[h|] x] a IH]; simpl; [reflexivity| |exact IH].
  rewrite IH. reflexivity.
Qed.

(** X17.  Files are processed independently and in order: the result for
    a list of files followed by another is the two results put end to end,
    and a raise on either part is a raise on the whole. *)
Theorem process_input_app :
  forall (fs1 fs2 : list (list str)) (f : filters),
    process_input (fs1 ++ fs2) f =
    match process_input fs1 f, process_input fs2 f with
    | Ok (h1, a1), Ok (h2, a2) => Ok (h1 ++ h2, a1 ++ a2)
    | _, _ => Raise TypeError
    end.
Proof.
  intros fs1 fs2 f. rewrite !process_input_pool, !collect_spec.
  unfold pool_results. rewrite flat_map_app, successes_app, existsb_app.
  destruct (existsb (raises f) (successes (flat_map _ fs1))); cbn [orb];
    [reflexivity|].
  destruct (existsb (raises f) (successes (flat_map _ fs2)));
    [reflexivity|].
  rewrite filter_app, !map_app, concat_app. reflexivity.
Qed.

Lemma split_into_hands_headerless lines :
  Forall (fun l => is_header l = false) lines ->
  split_into_hands lines =
  match lines with
  | [] => []
  | _ => [map rstrip_nl lines]
  end.
Proof.
  intros H. unfold split_into_hands.
  rewrite <- (app_nil_r lines) at 1.
  rewrite split_loop_fragment by exact H. simpl.
  destruct lines; reflexivity.
Qed.

Lemma successes_headerless : forall files,
  Forall (Forall (fun l => text_line l /\ is_header l = false)) files ->
  successes (pool_results files) = [].
Proof.
  induction files as [|fl files IH]; intros H; [reflexivity|].
  inversion H as [|? ? Hfl Hrest]; subst.
  change (pool_results (fl :: files))
    with (map parse_hand (split_into_hands fl) ++ pool_results files).
  rewrite successes_app, (IH Hrest), app_nil_r.
  assert (Hh : Forall (fun l => is_header l = false) fl)
    by (eapply Forall_impl; [|exact Hfl]; intros l [_ Hl]; exact Hl).
  assert (Ht : Forall text_line fl)
    by (eapply Forall_impl; [|exact Hfl]; intros l [Hl _]; exact Hl).
  rewrite (split_into_hands_headerless Hh).
  destruct fl as [|l fl]; [reflexivity|].
  pose proof (fragment_rejected Ht Hh) as Hp.
  cbn [map] in Hp |- *. rewrite Hp. reflexivity.
Qed.

(** X18.  Files of text lines without any header line give an empty
    result, whatever the filters are: no hand, no action, no raise. *)
Theorem process_input_headerless :
  forall (files : list (list str)) (f : filters),
    Forall (Forall (fun l => text_line l /\ is_header l = false)) files ->
    process_input files f = Ok ([], []).
Proof.
  intros files f H. rewrite process_input_pool, collect_spec.
  rewrite (successes_headerless H). reflexivity.
Qed.

Lemma process_input_headerless_witness :
  process_input [[]; firstn 2 mid_hand_file]
    {| f_game := None; f_min_players := Some 2%Z; f_max_players := None |} =
  Ok ([], []).
Proof.
  apply process_input_headerless.
  repeat constructor; try (apply text_line_ln; reflexivity).
Defined.

Lemma lower_not_upper x : is_upper (lower x) = false.
Proof.
  pose proof (forall_ascii (fun x => negb (is_upper (lower x)))
                           ltac:(vm_compute; reflexivity) x) as H.
  apply negb_true_iff in H. exact H.
Qed.

Lemma game_lower_case lines h acts g :
  parse_hand lines = (Some h, acts) -> game h = Some g ->
  existsb is_upper g = false.
Proof.
  intros H Hg. apply parse_hand_fields in H.
  destruct H as (li & seats & btn & pot & rk & w & Hli & _ & _ & _ & _
                 & Hgame & _).
  rewrite Hgame in Hg. destruct li as [i|]; [|discriminate].
  simpl in Hg. inversion Hg; subst g.
  apply find_limit_some in Hli.
  destruct Hli as (pre & l & post & m & lim & g0 & _ & _ & _ & _ & _ & _
                   & -> & _).
  unfold remove_char, str_lower. generalize g0. clear.
  induction g0 as [|x g0 IH]; simpl; [reflexivity|].
  destruct (negb (ascii_eqb (lower x) "'")); simpl; [|exact IH].
  rewrite lower_not_upper. exact IH.
Qed.

Lemma in_successes : forall files h a,
  In (h, a) (successes (pool_results files)) ->
  exists block, parse_hand block = (Some h, a).
Proof.
  intros files h a.
  assert (Hs : forall fs, In (h, a) (successes fs) -> In (Some h, a) fs).
  { induction fs as [|[[h0|] a0] fs IH]; simpl; intros H; auto.
    destruct H as [H|H]; [left; congruence|auto]. }
  intros H. apply Hs in H. unfold pool_results in H.
  apply in_flat_map in H. destruct H as (fl & _ & H).
  apply in_map_iff in H. destruct H as (block & Hb & _). eauto.
Qed.

Lemma all_excluded f l :
  Forall (fun p => passes f (fst p) = Ok false) l ->
  existsb (raises f) l = false /\ filter (keeps f) l = [].
Proof.
  induction 1 as [|p l Hp _ [IH1 IH2]]; [auto|].
  cbn [existsb filter]. unfold raises at 1, keeps at 1.
  rewrite Hp. cbn [orb]. auto.
Qed.

(** X19.  The game filter is compared as written with the lower-case game
    of the hands: when every name of a non-empty game list holds an
    upper-case letter, no hand is returned, and nothing is raised. *)
Theorem game_filter_case_sensitive :
  forall (files : list (list str)) (f : filters) (gs : list str),
    f_game f = Some gs -> gs <> [] ->
    Forall (fun g => existsb is_upper g = true) gs ->
    process_input files f = Ok ([], []).
Proof.
  intros files f gs Hf Hne Hup.
  rewrite process_input_pool, collect_spec.
  destruct (@all_excluded f (successes (pool_results files))) as [H1 H2].
  - apply Forall_forall. intros [h a] Hin.
    apply in_successes in Hin. destruct Hin as (block & Hb). cbn [fst].
    unfold passes. rewrite Hf.
    assert (Hin : game_in (game h) (Some gs) = false).
    { unfold game_in. destruct (game h) as [g|] eqn:Hg; [|reflexivity].
      pose proof (game_lower_case _ Hb Hg) as Hlow.
      clear - Hup Hlow. induction Hup as [|g' gs Hg' _ IH]; simpl;
        [reflexivity|].
      rewrite IH, orb_false_r.
      destruct (str_eqb g g') eqn:E; [|reflexivity].
      apply str_eqb_eq in E. congruence. }
    rewrite Hin. destruct gs; [congruence|]. reflexivity.
  - rewrite H1, H2. reflexivity.
Qed.

Lemma game_filter_case_sensitive_witness :
  process_input [two_hands_file; TEST_HAND]
    {| f_game := Some [lit "Holdem"]; f_min_players := Some 2%Z;
       f_max_players := None |} = Ok ([], []).
Proof.
  apply (@game_filter_case_sensitive _ _ [lit "Holdem"]).
  - reflexivity.
  - discriminate.
  - repeat constructor.
Defined.

(** * The button seat *)




(** * Hands and header lines *)

Lemma count_lines_app test (a b : list str) :
  count_lines test (a ++ b) = count_lines test a + count_lines test b.
Proof. unfold count_lines. rewrite filter_app, length_app. reflexivity. Qed.

Lemma count_lines_some test : forall lines : list str,
  existsb test lines = true -> 1 <= count_lines test lines.
Proof.
  unfold count_lines. induction lines as [|l lines IH]; intros H;
    simpl in H |- *; [discriminate|].
  destruct (test l); simpl; [lia|]. apply IH. exact H.
Qed.

Lemma count_headers_stripped : forall lines,
  Forall text_line lines ->
  count_lines is_header (map rstrip_nl lines) = count_lines is_header lines.
Proof.
  unfold count_lines. induction lines as [|l lines IH]; intros H;
    [reflexivity|].
  inversion H as [|? ? Hl Ht]; subst. cbn [map filter].
  rewrite (is_header_strip_text Hl).
  destruct (is_header l); cbn [List.length]; rewrite (IH Ht); reflexivity.
Qed.

Lemma successes_headers : forall bs : list (list str),
  List.length (successes (map parse_hand bs)) <=
  count_lines is_header (List.concat bs).
Proof.
  induction bs as [|b bs IH]; [apply Nat.le_0_l|].
  cbn [map List.concat]. rewrite count_lines_app.
  destruct (parse_hand b) as [[h|] a] eqn:E; cbn [successes List.length].
  - assert (Hh : existsb is_header b = true).
    { destruct (existsb is_header b) eqn:Hb; [reflexivity|].
      assert (Hn : parse_hand b = (None, []))
        by (apply parse_hand_fails_iff; auto).
      congruence. }
    apply count_lines_some in Hh. lia.
  - lia.
Qed.

Lemma pool_headers : forall files,
  Forall (Forall text_line) files ->
  List.length (successes (pool_results files)) <=
  count_lines is_header (List.concat files).
Proof.
  induction files as [|fl files IH]; intros H; [apply Nat.le_0_l|].
  inversion H as [|? ? Hfl Hrest]; subst.
  change (pool_results (fl :: files))
    with (map parse_hand (split_into_hands fl) ++ pool_results files).
  cbn [List.concat].
  rewrite successes_app, length_app, count_lines_app.
  pose proof (successes_headers (split_into_hands fl)) as Hs.
  unfold split_into_hands in Hs at 2. rewrite split_loop_concat in Hs.
  cbn [app] in Hs. rewrite (count_headers_stripped Hfl) in Hs.
  specialize (IH Hrest). lia.
Qed.

(** X21.  On files of text lines [process_input] returns no more hands than
    the files hold header lines. *)
Theorem hands_bounded_by_headers :
  forall (files : list (list str)) (f : filters) hs acts,
    Forall (Forall text_line) files ->
    process_input files f = Ok (hs, acts) ->
    List.length hs <= count_lines is_header (List.concat files).
Proof.
  intros files f hs acts Ht H.
  rewrite process_input_pool, collect_spec in H.
  destruct (existsb (raises f) (successes (pool_results files)));
    [discriminate|].
  inversion H; subst. cbn [app]. rewrite length_map.
  eapply Nat.le_trans; [apply filter_length_le|].
  apply pool_headers. exact Ht.
Qed.

Lemma hands_bounded_by_headers_witness :
  exists hs acts,
    process_input [two_hands_file; mid_hand_file] no_filters = Ok (hs, acts) /\
    List.length hs <=
    count_lines is_header (List.concat [two_hands_file; mid_hand_file]).
Proof.
  destruct (process_input [two_hands_file; mid_hand_file] no_filters)
    as [[hs acts]|] eqn:E; [|vm_compute in E; discriminate].
  exists hs, acts. split; [reflexivity|].
  eapply hands_bounded_by_headers; [|exact E].
  repeat constructor; apply text_line_ln; reflexivity.
Defined.
